(** * Self-updating application: the update engine of [updater.py]

    A shallow embedding of [config.py] and of the [SelfUpdater] class of
    [updater.py], and the properties of the update cycle proved on it.

    The Python code works on three directories (the scratch directory
    [TEMP_DIR], the backup directory [BACKUP_DIR] and the installation
    directory that holds the running executable), talks to the update server,
    writes to a logger, and signals errors with exceptions that every method
    catches.  The embedding keeps all of that:

    - the three directories are finite maps from file names to contents; they
      are distinct directories and hold plain files;
    - the replies of the server and the faults of the operating system during
      one cycle (a failed request, a broken download, a failed archive, a
      failed extraction) are read from an [env] value, one per cycle; listing
      a directory and unlinking a file that exists do not fail;
    - every [self.logger] call, the call of the restart callback and
      [time.sleep] append an event to a trace;
    - methods are computations in a state-and-exception monad [M], and
      [try: ... except Exception] is [try_except];
    - the packages [semver], [hashlib], [zipfile] and [shutil] are taken as a
      parameter, the class [Libraries]. *)

From Stdlib Require Import ZArith Lia Ascii String.
From stdpp Require Import base option strings list gmap fin_maps sorting pretty.

(** ** Values received from the server

    [response.json()] yields an arbitrary JSON value.  Numbers are
    integers here: a float takes the same branches as an integer of the same
    truth value in every path of the updater. *)

Set Warnings "-register-all".

Inductive json : Type :=
  | JNull
  | JBool (b : bool)
  | JNum (n : Z)
  | JStr (s : string)
  | JList (l : list json)
  | JDict (d : list (string * json)).

(** Python's truth value of an object, as used by [if not x]. *)
Definition truthy (v : json) : bool :=
  match v with
  | JNull => false
  | JBool b => b
  | JNum n => negb (n =? 0)%Z
  | JStr s => negb (String.eqb s "")
  | JList l => match l with [] => false | _ :: _ => true end
  | JDict d => match d with [] => false | _ :: _ => true end
  end.

(** ** Exceptions and outcomes *)

Inductive exn : Type :=
  | RequestException
  | AttributeError
  | KeyError
  | TypeError
  | ValueError
  | OSError
  | FileNotFoundError
  | BadZipFile.

(** A computation returns, raises an exception (a subclass of
    [Exception]), or ends because the restart callback replaced the process
    image ([os.execl] in [program.py]); the last one is not an exception and
    no handler sees it. *)
Inductive outcome (A : Type) : Type :=
  | Return (a : A)
  | Raise (e : exn)
  | Replaced.
Arguments Return {A} a.
Arguments Raise {A} e.
Arguments Replaced {A}.

(** ** Files and paths *)

Abbreviation bytes := (list Byte.byte).

Inductive dir : Type := TEMP_DIR | BACKUP_DIR.

(** A [pathlib.Path] below one of the two private directories. *)
Record Path : Type := mkPath { parent : dir; name : string }.

Definition joinpath (d : dir) (n : string) : Path := mkPath d n.
Infix "//" := joinpath (at level 40, left associativity).

(** The file system the updater touches.  A backup entry carries its
    modification time ([st_mtime]). *)
Record fs : Type := mkFs {
  temp_dir : gmap string bytes;
  backup_dir : gmap string (Z * bytes);
  app_dir : gmap string bytes
}.

(** ** The trace: log lines, the restart callback, sleeping

    One constructor per [self.logger] call of [updater.py]; the arguments are
    the values its f-string prints. *)

Inductive message : Type :=
  | Starting_update_process
  | Failed_to_create_backup
  | Failed_to_apply_update_attempting_rollback
  | Update_completed_successfully
  | Update_failed (e : exn)
  | Failed_to_get_update_info (e : exn)
  | Creating_backup (archive : string)
  | Backup_created_successfully
  | Failed_to_create_backup_exn (e : exn)
  | Downloading_update
  | Download_progress (downloaded total_size : Z)
  | Checksum_verification_failed
  | Download_completed_and_verified
  | Failed_to_download_update (e : exn)
  | Error_verifying_checksum (e : exn)
  | Failed_to_extract (zip_file_path : Path) (e : exn)
  | Applying_update
  | Update_applied_successfully
  | Failed_to_apply_update
  | Performing_rollback
  | No_backup_found_for_rollback
  | Rollback_completed
  | Rollback_failed
  | Error_cleaning_up_temp_files (e : exn)
  | Removed_old_backup (backup_name : string)
  | Error_cleaning_up_old_backups (e : exn)
  | Checking_for_updates
  | Invalid_version_response_from_server
  | Current_version_Remote_version (current_version : string) (remote_version : json)
  | Update_available (remote_version : json)
  | Update_completed_successfully_Requesting_restart
  | Update_failed_Continuing_with_current_version
  | No_updates_available
  | Error_during_periodic_update_check (e : exn).

Inductive level : Type := INFO | ERROR.

Inductive event : Type :=
  | Log (lvl : level) (msg : message)
  | Restart_callback
  | Sleep (seconds : Z).

(** The state a computation runs on: the files and the trace so far (oldest
    event first). *)
Record world : Type := mkWorld { files : fs; trace : list event }.

(** ** What one cycle meets outside the program *)

(** The reply to [GET /api/download]: the request, the status check or the
    parsing of the length header raise before the scratch file is opened; or
    the body arrives in chunks and [iter_content] may raise after some of
    them. *)
Inductive download : Type :=
  | Download_failed (e : exn)
  | Download_body (total_size : Z) (chunks : list bytes) (interrupted : option exn).

(** A fault of [shutil.make_archive]: the exception, and what it had
    written at the archive's path by then, if anything. *)
Record archive_fault : Type := mkArchiveFault {
  archive_exn : exn;
  archive_leftover : option bytes
}.

(** A fault of [ZipFile.extractall]: the exception, raised when the member
    at this position is extracted (the members before it are on disk). *)
Record extract_fault : Type := mkExtractFault {
  extract_at : nat;
  extract_exn : exn
}.

Record env : Type := mkEnv {
  version_reply : exn + json;          (* GET /api/version and response.json() *)
  download_reply : download;
  now : Z;                             (* st_mtime given to an archive written in this cycle *)
  make_archive_fault : option archive_fault;
  apply_fault : option extract_fault;
  rollback_fault : option extract_fault
}.

(** What the restart callback does when called: it returns, it raises, or
    it replaces the process image and never returns. *)
Inductive callback : Type :=
  | Callback_returns
  | Callback_raises (e : exn)
  | Callback_replaces_process.

(** ** The monad *)

Definition M (A : Type) : Type := world → outcome A * world.

Definition ret {A} (a : A) : M A := λ w, (Return a, w).

Definition bind {A B} (m : M A) (k : A → M B) : M B :=
  λ w, match m w with
       | (Return a, w') => k a w'
       | (Raise e, w') => (Raise e, w')
       | (Replaced, w') => (Replaced, w')
       end.

Definition raise {A} (e : exn) : M A := λ w, (Raise e, w).

Definition replace_process {A} : M A := λ w, (Replaced, w).

(** [try: body except Exception as e: handler e] *)
Definition try_except {A} (body : M A) (handler : exn → M A) : M A :=
  λ w, match body w with
       | (Raise e, w') => handler e w'
       | r => r
       end.

Declare Scope updater_scope.
Notation "'let*' x ':=' m 'in' k" := (bind m (λ x, k))
  (at level 10, x name, m at level 100, k at level 200) : updater_scope.
Notation "m ';;;' k" := (bind m (λ _, k))
  (at level 100, k at level 200, right associativity) : updater_scope.
Local Open Scope updater_scope.

Definition emit (e : event) : M unit :=
  λ w, (Return tt, mkWorld (files w) (trace w ++ [e])).

Definition logger_info (msg : message) : M unit := emit (Log INFO msg).
Definition logger_error (msg : message) : M unit := emit (Log ERROR msg).

Definition get_files : M fs := λ w, (Return (files w), w).
Definition put_files (f : fs) : M unit := λ w, (Return tt, mkWorld f (trace w)).

(** [for x in xs: body x] *)
Fixpoint for_each {A} (xs : list A) (body : A → M unit) : M unit :=
  match xs with
  | [] => ret tt
  | x :: rest => body x ;;; for_each rest body
  end.

(** Primitive file operations.  Opening a missing file for reading and
    unlinking a missing file raise [FileNotFoundError]. *)

Definition lookup_file (f : fs) (p : Path) : option bytes :=
  match parent p with
  | TEMP_DIR => temp_dir f !! name p
  | BACKUP_DIR => snd <$> backup_dir f !! name p
  end.

Definition path_exists (p : Path) : M bool :=
  let* f := get_files in ret (bool_decide (is_Some (lookup_file f p))).

Definition read_file (p : Path) : M bytes :=
  let* f := get_files in
  match lookup_file f p with
  | Some content => ret content
  | None => raise FileNotFoundError
  end.

Definition remove_file (f : fs) (p : Path) : fs :=
  match parent p with
  | TEMP_DIR => mkFs (delete (name p) (temp_dir f)) (backup_dir f) (app_dir f)
  | BACKUP_DIR => mkFs (temp_dir f) (delete (name p) (backup_dir f)) (app_dir f)
  end.

Definition unlink (p : Path) : M unit :=
  let* f := get_files in
  match lookup_file f p with
  | Some _ => put_files (remove_file f p)
  | None => raise FileNotFoundError
  end.

(** [open(temp_file, 'wb')]: creates the file or truncates it. *)
Definition open_wb (temp_name : string) : M unit :=
  let* f := get_files in
  put_files (mkFs (<[temp_name := []]> (temp_dir f)) (backup_dir f) (app_dir f)).

(** [f.write(chunk)] on the file opened above. *)
Definition write (temp_name : string) (chunk : bytes) : M unit :=
  let* f := get_files in
  put_files (mkFs (<[temp_name := (default [] (temp_dir f !! temp_name) ++ chunk)%list]> (temp_dir f))
                  (backup_dir f) (app_dir f)).

(** ** Python and [pathlib] helpers *)

(** [dict.get(key)]: [None] when the key is absent; a value that is not a
    dict has no [get]. *)
Fixpoint assoc (key : string) (d : list (string * json)) : option json :=
  match d with
  | [] => None
  | (k, v) :: rest => if String.eqb k key then Some v else assoc key rest
  end.

Definition py_get (obj : json) (key : string) : M json :=
  match obj with
  | JDict d => ret (default JNull (assoc key d))
  | _ => raise AttributeError
  end.

(** [obj[key]] *)
Definition py_getitem (obj : json) (key : string) : M json :=
  match obj with
  | JDict d => match assoc key d with Some v => ret v | None => raise KeyError end
  | _ => raise TypeError
  end.

(** [str.lower] on the ASCII range (a SHA-256 hex digest is ASCII). *)
Definition ascii_lower (c : ascii) : ascii :=
  let n := nat_of_ascii c in
  if (65 <=? n)%nat && (n <=? 90)%nat then ascii_of_nat (n + 32) else c.

Fixpoint lower (s : string) : string :=
  match s with
  | EmptyString => EmptyString
  | String c rest => String (ascii_lower c) (lower rest)
  end.

(** [x.lower()] of a JSON value: only a string has the method. *)
Definition py_lower (v : json) : M string :=
  match v with
  | JStr s => ret (lower s)
  | _ => raise AttributeError
  end.

Definition startswith (s pre : string) : bool := String.prefix pre s.

Definition endswith (s suf : string) : bool :=
  (String.length suf <=? String.length s)%nat
  && String.eqb (substring (String.length s - String.length suf) (String.length suf) s) suf.

(** [str.rfind]: the index of the last occurrence of a character. *)
Fixpoint rfind_from (c : ascii) (s : string) (i : nat) (last : option nat) : option nat :=
  match s with
  | EmptyString => last
  | String a rest => rfind_from c rest (S i) (if Ascii.eqb a c then Some i else last)
  end.

Definition rfind (c : ascii) (s : string) : option nat := rfind_from c s 0 None.

(** [PurePath.suffix]: the part of the name from its last dot on, unless that
    dot is the first or the last character. *)
Definition suffix (p : Path) : string :=
  let n := name p in
  match rfind "."%char n with
  | Some i =>
      if (0 <? i)%nat && (i <? String.length n - 1)%nat
      then substring i (String.length n - i) n
      else ""
  | None => ""
  end.

(** [PurePath.with_suffix]: replaces the suffix of the name, or appends when
    the name has none.  (An empty name raises [ValueError]; the name of a
    backup path starts with the application name.) *)
Definition with_suffix (p : Path) (new_suffix : string) : Path :=
  let n := name p in
  let old_suffix := suffix p in
  if String.eqb old_suffix ""
  then mkPath (parent p) (n +:+ new_suffix)
  else mkPath (parent p)
         (substring 0 (String.length n - String.length old_suffix) n +:+ new_suffix).

(** ** Libraries the updater calls

    [semver], [hashlib], [zipfile] and [shutil] are not part of the
    repository; the updater is embedded over any implementation of them.
    [semver_compare] is [None] when [semver.compare] raises [ValueError] (a
    string that is not a semantic version); [zip_members] is [None] when
    [zipfile.ZipFile] raises [BadZipFile]; [py_str] is the text an f-string
    prints for a value. *)
Class Libraries : Type := {
  semver_compare : string → string → option Z;
  sha256_hexdigest : bytes → string;
  zip_members : bytes → option (list (string * bytes));
  zip_archive : list (string * bytes) → bytes;
  py_str : json → string
}.

(** ** [config.py] *)

Definition APP_NAME : string := "nametag".
Definition MAX_BACKUP_COUNT : nat := 5.
Definition VERIFY_CHECKSUMS : bool := true.

(** The value of [Config.VERSION] in the source; [create_update.py] rewrites
    it for every release, so the updater below is embedded over any
    [VERSION]. *)
Definition VERSION_in_source : string := "1.0.16".

(** [Config.get_backup_path] *)
Definition get_backup_path (VERSION : string) : Path :=
  BACKUP_DIR // (APP_NAME +:+ "_v" +:+ VERSION).

(** The pattern [f"{APP_NAME}_v*.zip"] of [Path.glob]. *)
Definition backup_glob (file_name : string) : bool :=
  let pre := APP_NAME +:+ "_v" in
  startswith file_name pre && endswith file_name ".zip"
  && (String.length pre + String.length ".zip" <=? String.length file_name)%nat.

(** [x.stat().st_mtime] of a listed backup. *)
Definition st_mtime (backup : string * (Z * bytes)) : Z := backup.2.1.

(** The order of [sort(key=st_mtime, reverse=True)]: newest first. *)
Definition newer_first (a b : string * (Z * bytes)) : Prop := (st_mtime b ≤ st_mtime a)%Z.

#[global] Instance newer_first_dec : RelDecision newer_first.
Proof. intros a b. unfold newer_first. apply _. Defined.

(** [list(BACKUP_DIR.glob(pattern))] *)
Definition glob_backups (f : fs) : list (string * (Z * bytes)) :=
  filter (λ b, backup_glob b.1 = true) (map_to_list (backup_dir f)).

(** ** [updater.py]: class [SelfUpdater] *)

Section SelfUpdater.

Context {libs : Libraries}.
Variable VERSION : string.

Definition write_file (p : Path) (mtime : Z) (content : bytes) : M unit :=
  let* f := get_files in
  match parent p with
  | TEMP_DIR => put_files (mkFs (<[name p := content]> (temp_dir f)) (backup_dir f) (app_dir f))
  | BACKUP_DIR =>
      put_files (mkFs (temp_dir f) (<[name p := (mtime, content)]> (backup_dir f)) (app_dir f))
  end.

(** [shutil.make_archive(base_name, 'zip', app_dir)]: the archive is written
    at [base_name + ".zip"], replacing a file of that name. *)
Definition make_archive (E : env) (base_name : Path) : M unit :=
  let zip_filename := mkPath (parent base_name) (name base_name +:+ ".zip") in
  let* f := get_files in
  match make_archive_fault E with
  | None => write_file zip_filename (now E) (zip_archive (map_to_list (app_dir f)))
  | Some fault =>
      match archive_leftover fault with
      | Some partial => write_file zip_filename (now E) partial
      | None => ret tt
      end ;;;
      raise (archive_exn fault)
  end.

(** [ZipFile.extract(member, app_dir)]: the member is written over a file of
    the same relative path. *)
Definition extract_member (member : string * bytes) : M unit :=
  let* f := get_files in
  put_files (mkFs (temp_dir f) (backup_dir f) (<[member.1 := member.2]> (app_dir f))).

(** [ZipFile.extractall(app_dir)]: the members are extracted in order; [i] is
    the position of the next one. *)
Fixpoint extractall (members : list (string * bytes)) (i : nat)
    (fault : option extract_fault) : M unit :=
  match members with
  | [] => ret tt
  | member :: rest =>
      match fault with
      | Some ft =>
          if (extract_at ft =? i)%nat then raise (extract_exn ft)
          else extract_member member ;;; extractall rest (S i) fault
      | None => extract_member member ;;; extractall rest (S i) fault
      end
  end.

Definition _get_update_info (E : env) : M json :=
  try_except
    (match version_reply E with
     | inr response_json => ret response_json
     | inl e => raise e
     end)
    (λ e, logger_error (Failed_to_get_update_info e) ;;; ret JNull).

Definition _create_backup (E : env) : M bool :=
  try_except
    (let backup_path := get_backup_path VERSION in
     logger_info (Creating_backup (name backup_path +:+ ".zip")) ;;;
     make_archive E backup_path ;;;
     logger_info Backup_created_successfully ;;;
     ret true)
    (λ e, logger_error (Failed_to_create_backup_exn e) ;;; ret false).

Definition _verify_checksum (file_path : Path) (expected_checksum : json) : M bool :=
  try_except
    (let* content := read_file file_path in
     let actual_checksum := sha256_hexdigest content in
     let* expected_lower := py_lower expected_checksum in
     ret (String.eqb (lower actual_checksum) expected_lower))
    (λ e, logger_error (Error_verifying_checksum e) ;;; ret false).

(** The body of [with open(temp_file, 'wb') as f: for chunk in
    response.iter_content(...)]. *)
Fixpoint iter_content (temp_name : string) (total_size : Z) (chunks : list bytes)
    (downloaded : Z) : M unit :=
  match chunks with
  | [] => ret tt
  | chunk :: rest =>
      match chunk with
      | [] => iter_content temp_name total_size rest downloaded
      | _ :: _ =>
          write temp_name chunk ;;;
          let downloaded := (downloaded + Z.of_nat (length chunk))%Z in
          (if (0 <? total_size)%Z
           then logger_info (Download_progress downloaded total_size)
           else ret tt) ;;;
          iter_content temp_name total_size rest downloaded
      end
  end.

Definition _download_update (E : env) (update_info : json) : M (option Path) :=
  try_except
    (let* expected_checksum := py_get update_info "checksum" in
     logger_info Downloading_update ;;;
     let* version := py_getitem update_info "version" in
     let temp_file := TEMP_DIR // ("update_" +:+ py_str version +:+ ".zip") in
     match download_reply E with
     | Download_failed e => raise e
     | Download_body total_size chunks interrupted =>
         open_wb (name temp_file) ;;;
         iter_content (name temp_file) total_size chunks 0 ;;;
         match interrupted with Some e => raise e | None => ret tt end ;;;
         let* verified :=
           (if truthy expected_checksum && VERIFY_CHECKSUMS
            then _verify_checksum temp_file expected_checksum
            else ret true) in
         if negb verified then
           logger_error Checksum_verification_failed ;;;
           unlink temp_file ;;;
           ret None
         else
           logger_info Download_completed_and_verified ;;;
           ret (Some temp_file)
     end)
    (λ e, logger_error (Failed_to_download_update e) ;;; ret None).

Definition _extract_zip_to_app_dir (zip_file_path : Path) (fault : option extract_fault)
    : M bool :=
  try_except
    (let* content := read_file zip_file_path in
     match zip_members content with
     | None => raise BadZipFile
     | Some members => extractall members 0 fault ;;; ret true
     end)
    (λ e, logger_error (Failed_to_extract zip_file_path e) ;;; ret false).

Definition _apply_update (E : env) (update_file : Path) : M bool :=
  logger_info Applying_update ;;;
  let* extracted := _extract_zip_to_app_dir update_file (apply_fault E) in
  if extracted then logger_info Update_applied_successfully ;;; ret true
  else logger_error Failed_to_apply_update ;;; ret false.

Definition _rollback (E : env) : M bool :=
  logger_info Performing_rollback ;;;
  let backup_path_base := get_backup_path VERSION in
  let backup_zip_path := with_suffix backup_path_base ".zip" in
  let* found := path_exists backup_zip_path in
  if negb found then logger_error No_backup_found_for_rollback ;;; ret false
  else
    let* extracted := _extract_zip_to_app_dir backup_zip_path (rollback_fault E) in
    if extracted then logger_info Rollback_completed ;;; ret true
    else logger_error Rollback_failed ;;; ret false.

(** Every item of the scratch directory is a plain file here, so the loop
    only unlinks. *)
Definition _cleanup_temp_files : M unit :=
  try_except
    (let* f := get_files in
     for_each (map_to_list (temp_dir f)) (λ item, unlink (TEMP_DIR // item.1)))
    (λ e, logger_error (Error_cleaning_up_temp_files e)).

(** [list.sort] is stable and [glob] lists in no specified order, so
    archives of equal modification time come in no specified order; any sort
    by modification time, newest first, stands for it. *)
Definition _cleanup_old_backups : M unit :=
  try_except
    (let* f := get_files in
     let backups := glob_backups f in
     let backups := merge_sort newer_first backups in
     for_each (drop MAX_BACKUP_COUNT backups)
       (λ backup, unlink (BACKUP_DIR // backup.1) ;;; logger_info (Removed_old_backup backup.1)))
    (λ e, logger_error (Error_cleaning_up_old_backups e)).

Definition _perform_update_with_info (E : env) (update_info : json) : M bool :=
  try_except
    (logger_info Starting_update_process ;;;
     let* update_file := _download_update E update_info in
     match update_file with
     | None => ret false
     | Some update_file =>
         let* backed_up := _create_backup E in
         if negb backed_up then logger_error Failed_to_create_backup ;;; ret false
         else
           let* applied := _apply_update E update_file in
           if negb applied then
             logger_error Failed_to_apply_update_attempting_rollback ;;;
             _rollback E ;;;
             ret false
           else
             _cleanup_temp_files ;;;
             _cleanup_old_backups ;;;
             logger_info Update_completed_successfully ;;;
             ret true
     end)
    (λ e, logger_error (Update_failed e) ;;; _rollback E ;;; ret false).

(** [semver.compare(remote_version, current_version)]: a value that is
    not a string raises [TypeError]. *)
Definition semver_compare_call (ver1 : json) (ver2 : string) : M Z :=
  match ver1 with
  | JStr s =>
      match semver_compare s ver2 with
      | Some comparison => ret comparison
      | None => raise ValueError
      end
  | _ => raise TypeError
  end.

(** [self._restart_callback()] *)
Definition call_restart_callback (cb : callback) : M unit :=
  emit Restart_callback ;;;
  match cb with
  | Callback_returns => ret tt
  | Callback_raises e => raise e
  | Callback_replaces_process => replace_process
  end.

Definition _check_and_update (_restart_callback : option callback) (E : env) : M unit :=
  try_except
    (logger_info Checking_for_updates ;;;
     let* update_info := _get_update_info E in
     if negb (truthy update_info) then ret tt
     else
       let* remote_version := py_get update_info "version" in
       if negb (truthy remote_version) then
         logger_error Invalid_version_response_from_server ;;; ret tt
       else
         let current_version := VERSION in
         logger_info (Current_version_Remote_version current_version remote_version) ;;;
         let* comparison := semver_compare_call remote_version current_version in
         if (0 <? comparison)%Z then
           logger_info (Update_available remote_version) ;;;
           let* updated := _perform_update_with_info E update_info in
           if updated then
             logger_info Update_completed_successfully_Requesting_restart ;;;
             match _restart_callback with
             | Some cb => call_restart_callback cb
             | None => ret tt
             end
           else logger_error Update_failed_Continuing_with_current_version
         else logger_info No_updates_available)
    (λ e, logger_error (Error_during_periodic_update_check e)).

(** [while True: self._check_and_update(); time.sleep(10)], run over the
    environments of its first cycles, with the callback that
    [start_periodic_checking] stored.  The loop has no exit: when the list is
    used up it is still running. *)
Fixpoint _periodic_update_check (_restart_callback : option callback) (cycles : list env)
    : M unit :=
  match cycles with
  | [] => ret tt
  | E :: later =>
      _check_and_update _restart_callback E ;;;
      emit (Sleep 10) ;;;
      _periodic_update_check _restart_callback later
  end.

End SelfUpdater.

(** ** A concrete instance of the libraries

    Used to run the updater on concrete inputs; the theorems below hold for
    every instance of [Libraries]. *)

Module Reference.

(** [str.split(sep)] for a one-character separator. *)
Fixpoint split (sep : ascii) (s : string) : list string :=
  match s with
  | EmptyString => [EmptyString]
  | String c rest =>
      if Ascii.eqb c sep then EmptyString :: split sep rest
      else match split sep rest with
           | [] => [String c EmptyString]
           | first :: others => String c first :: others
           end
  end.

(** [str.partition(sep)]: the text before the first separator, and the text
    after it when there is one. *)
Fixpoint partition (sep : ascii) (s : string) : string * option string :=
  match s with
  | EmptyString => (EmptyString, None)
  | String c rest =>
      if Ascii.eqb c sep then (EmptyString, Some rest)
      else let '(before, after) := partition sep rest in (String c before, after)
  end.

Definition is_digit (c : ascii) : bool :=
  let n := nat_of_ascii c in (48 <=? n)%nat && (n <=? 57)%nat.

Definition is_alnum_or_hyphen (c : ascii) : bool :=
  let n := nat_of_ascii c in
  is_digit c || ((65 <=? n)%nat && (n <=? 90)%nat) || ((97 <=? n)%nat && (n <=? 122)%nat)
  || (n =? 45)%nat.

Fixpoint all_chars (p : ascii → bool) (s : string) : bool :=
  match s with
  | EmptyString => true
  | String c rest => p c && all_chars p rest
  end.

Fixpoint decimal_value (s : string) (acc : N) : N :=
  match s with
  | EmptyString => acc
  | String c rest => decimal_value rest (acc * 10 + N.of_nat (nat_of_ascii c - 48))
  end.

(** A numeric identifier: digits, without a leading zero. *)
Definition numeric (s : string) : option N :=
  match s with
  | EmptyString => None
  | String c rest =>
      if all_chars is_digit s && (negb (Ascii.eqb c "0"%char) || String.eqb rest "")
      then Some (decimal_value s 0)
      else None
  end.

(** A pre-release identifier: numeric, or alphanumeric with a letter or
    hyphen. *)
Inductive identifier : Type := Num (n : N) | Alnum (s : string).

Definition parse_identifier (s : string) : option identifier :=
  match numeric s with
  | Some n => Some (Num n)
  | None =>
      if negb (String.eqb s "") && all_chars is_alnum_or_hyphen s && negb (all_chars is_digit s)
      then Some (Alnum s)
      else None
  end.

Record Version : Type := mkVersion {
  major : N; minor : N; patch : N;
  prerelease : option (list identifier)
}.

Definition parse_build (b : string) : bool :=
  forallb (λ part, negb (String.eqb part "") && all_chars is_alnum_or_hyphen part) (split "." b).

Definition parse (s : string) : option Version :=
  let '(rest, build) := partition "+" s in
  let '(core, pre) := partition "-" rest in
  if match build with Some b => parse_build b | None => true end then
    match split "." core with
    | [ma; mi; pa] =>
        ma ← numeric ma; mi ← numeric mi; pa ← numeric pa;
        match pre with
        | None => Some (mkVersion ma mi pa None)
        | Some p => ids ← mapM parse_identifier (split "." p); Some (mkVersion ma mi pa (Some ids))
        end
    | _ => None
    end
  else None.

Definition cmp_N (a b : N) : Z :=
  match N.compare a b with Lt => (-1)%Z | Eq => 0%Z | Gt => 1%Z end.

Definition cmp_string (a b : string) : Z :=
  match String.compare a b with Lt => (-1)%Z | Eq => 0%Z | Gt => 1%Z end.

Definition cmp_identifier (a b : identifier) : Z :=
  match a, b with
  | Num x, Num y => cmp_N x y
  | Num _, Alnum _ => (-1)%Z
  | Alnum _, Num _ => 1%Z
  | Alnum x, Alnum y => cmp_string x y
  end.

Fixpoint cmp_prerelease (a b : list identifier) : Z :=
  match a, b with
  | [], [] => 0%Z
  | [], _ :: _ => (-1)%Z
  | _ :: _, [] => 1%Z
  | x :: a', y :: b' =>
      let c := cmp_identifier x y in if (c =? 0)%Z then cmp_prerelease a' b' else c
  end.

Definition compare_versions (a b : Version) : Z :=
  let c := cmp_N (major a) (major b) in
  if negb (c =? 0)%Z then c else
  let c := cmp_N (minor a) (minor b) in
  if negb (c =? 0)%Z then c else
  let c := cmp_N (patch a) (patch b) in
  if negb (c =? 0)%Z then c else
  match prerelease a, prerelease b with
  | None, None => 0%Z
  | None, Some _ => 1%Z
  | Some _, None => (-1)%Z
  | Some x, Some y => cmp_prerelease x y
  end.

(** Modelled from the spec: [semver.compare] of the third-party [semver]
    package, as the Version Comparator of the specification describes it:
    numeric comparison of major, minor and patch, a pre-release tag lowering
    precedence, build metadata ignored, an invalid string an error. *)
Definition compare (ver1 ver2 : string) : option Z :=
  a ← parse ver1; b ← parse ver2; Some (compare_versions a b).

(** A stand-in for SHA-256: a polynomial checksum printed in decimal
    digits.  Only the updater's use of the digest is under study. *)
Definition hexdigest (content : bytes) : string :=
  pretty (foldl (λ acc b, (acc * 31 + Byte.to_N b) mod 4294967296)%N 7%N content).

(** A stand-in for the zip format: a magic byte, then for every member the
    length of its name, the name, the length of its data, the data. *)
Definition bytes_of_string (s : string) : bytes := list_byte_of_string s.
Definition string_of_bytes (b : bytes) : string := string_of_list_byte b.

Definition length_byte (n : nat) : Byte.byte := default Byte.x00 (Byte.of_N (N.of_nat n)).

Fixpoint archive (members : list (string * bytes)) : bytes :=
  match members with
  | [] => []
  | (n, data) :: rest =>
      (length_byte (String.length n) :: bytes_of_string n)
      ++ (length_byte (length data) :: data) ++ archive rest
  end.

Fixpoint members_of (fuel : nat) (b : bytes) : option (list (string * bytes)) :=
  match fuel with
  | O => None
  | S fuel =>
      match b with
      | [] => Some []
      | ln :: b =>
          let ln := N.to_nat (Byte.to_N ln) in
          if (length b <? ln)%nat then None else
          match drop ln b with
          | [] => None
          | ld :: b' =>
              let ld := N.to_nat (Byte.to_N ld) in
              if (length b' <? ld)%nat then None else
              rest ← members_of fuel (drop ld b');
              Some ((string_of_bytes (take ln b), take ld b') :: rest)
          end
      end
  end.

Definition magic : Byte.byte := Byte.x50.

Definition zip (members : list (string * bytes)) : bytes := magic :: archive members.

Definition unzip (b : bytes) : option (list (string * bytes)) :=
  match b with
  | m :: rest => if Byte.eqb m magic then members_of (S (length rest)) rest else None
  | [] => None
  end.

(** [str(v)] of a scalar; a container prints as its brackets. *)
Definition str (v : json) : string :=
  match v with
  | JNull => "None"
  | JBool true => "True"
  | JBool false => "False"
  | JNum n => pretty n
  | JStr s => s
  | JList _ => "[...]"
  | JDict _ => "{...}"
  end.

#[global] Instance libraries : Libraries := {|
  semver_compare := compare;
  sha256_hexdigest := hexdigest;
  zip_members := unzip;
  zip_archive := zip;
  py_str := str
|}.

End Reference.

(** ** Concrete inputs *)

Module Example.

Import Reference.

Definition old_program : bytes := bytes_of_string "print('1.0.16')".
Definition new_program : bytes := bytes_of_string "print('1.0.17')".

(** The package of release 1.0.17 and its manifest. *)
Definition package : bytes := zip [("program.py", new_program)].

Definition manifest : json :=
  JDict [("version", JStr "1.0.17"); ("checksum", JStr (hexdigest package))].

Definition manifest_empty_checksum : json :=
  JDict [("version", JStr "1.0.17"); ("checksum", JStr "")].
Definition manifest_wrong_checksum : json :=
  JDict [("version", JStr "1.0.17"); ("checksum", JStr "0badc0de")].

(** Manifests of the running release and of an older one. *)
Definition manifest_same : json :=
  JDict [("version", JStr "1.0.16"); ("checksum", JStr (hexdigest package))].
Definition manifest_older : json :=
  JDict [("version", JStr "1.0.9"); ("checksum", JStr (hexdigest package))].

(** A download that is not an archive. *)
Definition garbage : bytes := bytes_of_string "<html>502</html>".

(** An installation of release 1.0.16 with empty private directories. *)
Definition installed : world :=
  mkWorld (mkFs ∅ ∅ {[ "program.py" := old_program ]}) [].

(** A cycle in which the server answers [m], the download delivers
    [content] in one chunk, and no operation faults. *)
Definition cycle (m : json) (content : bytes) : env :=
  mkEnv (inr m) (Download_body (Z.of_nat (length content)) [content] None) 1000 None None None.

(** The same cycle, but extraction of the package raises at its first
    member. *)
Definition cycle_extraction_fails (m : json) (content : bytes) : env :=
  mkEnv (inr m) (Download_body (Z.of_nat (length content)) [content] None) 1000 None
    (Some (mkExtractFault 0 OSError)) None.

(** An installation of release 1.0.16 whose backup directory holds no backup
    of 1.0.16 but a stray archive named [nametag_v1.0.zip]. *)
Definition stray_archive : bytes := zip [("program.py", bytes_of_string "print('stray')")].

Definition installed_with_stray_archive : world :=
  mkWorld (mkFs ∅ {[ "nametag_v1.0.zip" := (500%Z, stray_archive) ]}
             {[ "program.py" := old_program ]}) [].

End Example.

(** More concrete inputs. *)

Module Sample.

Import Reference Example.


(** The installation of release 1.0.16 after the package of 1.0.17, or the
    package of two files, was downloaded to the scratch directory. *)
Definition downloaded : world :=
  mkWorld (mkFs {[ "update_1.0.17.zip" := package ]} ∅ {[ "program.py" := old_program ]}) [].



(** A cycle whose download request is refused, one whose body breaks off
    after the first of two chunks was received, and one in which the backup
    archive cannot be written. *)
Definition refused : env :=
  mkEnv (inr manifest) (Download_failed RequestException) 1000 None None None.

Definition cut_off : env :=
  mkEnv (inr manifest) (Download_body 30 [bytes_of_string "PK"] (Some RequestException))
    1000 None None None.

Definition disk_full : env :=
  mkEnv (inr manifest) (Download_body 0 [package] None) 1000
    (Some (mkArchiveFault OSError None)) None None.

(** An installation of release 1.0.16 whose backup directory holds five
    archives of earlier releases, modified later than the clock of the cycles
    above shows. *)
Definition later_backups : list string :=
  ["nametag_v1.0.11.zip"; "nametag_v1.0.12.zip"; "nametag_v1.0.13.zip";
   "nametag_v1.0.14.zip"; "nametag_v1.0.15.zip"].

Definition installed_with_later_backups : world :=
  mkWorld
    (mkFs ∅ (list_to_map ((λ n, (n, (2000%Z, stray_archive))) <$> later_backups))
       {[ "program.py" := old_program ]}) [].

End Sample.

(** ** Vocabulary of the properties *)

(** The world after more events were appended to the trace. *)
Definition log_to (w : world) (events : list event) : world :=
  mkWorld (files w) (trace w ++ events).

(** A computation that always returns a value, and one that never ends by
    replacing the process (it returns or raises). *)
Definition returns {A} (m : M A) : Prop := ∀ w, ∃ a w', m w = (Return a, w').
Definition catchable {A} (m : M A) : Prop := ∀ w, (m w).1 ≠ Replaced.

(** A computation whose final world is related to its initial world. *)
Definition respects (R : relation world) {A} (m : M A) : Prop := ∀ w, R w (m w).2.

(** The relations used: a part of the file system is left as it was; the
    trace grows by events of one kind. *)
Definition same {X} (part : world → X) : relation world :=
  λ w w', part w' = part w.

Definition temp_files (w : world) : gmap string bytes := temp_dir (files w).
Definition backups (w : world) : gmap string (Z * bytes) := backup_dir (files w).
Definition installation (w : world) : gmap string bytes := app_dir (files w).

Definition emits (P : event → Prop) : relation world :=
  λ w w', ∃ new, trace w' = trace w ++ new ∧ Forall P new.

(** The events a cycle appended to the trace it started with. *)
Definition events_since (w w' : world) : list event := drop (length (trace w)) (trace w').

(** The log lines of the stages, and of a cycle that attempts no update. *)
Definition download_event (e : event) : Prop :=
  match e with
  | Log _ Downloading_update | Log _ (Download_progress _ _)
  | Log _ Checksum_verification_failed | Log _ Download_completed_and_verified
  | Log _ (Failed_to_download_update _) | Log _ (Error_verifying_checksum _) => True
  | _ => False
  end.

Definition idle_event (e : event) : Prop :=
  match e with
  | Log _ Checking_for_updates | Log _ (Failed_to_get_update_info _)
  | Log _ Invalid_version_response_from_server
  | Log _ (Current_version_Remote_version _ _) | Log _ No_updates_available
  | Log _ (Error_during_periodic_update_check _) => True
  | _ => False
  end.

(** What it means, on the events of a cycle, that a stage was attempted:
    each stage logs a line when it starts. *)
Definition download_attempted (events : list event) : Prop :=
  Log INFO Downloading_update ∈ events.
Definition backup_attempted (events : list event) : Prop :=
  ∃ archive, Log INFO (Creating_backup archive) ∈ events.
Definition apply_attempted (events : list event) : Prop :=
  Log INFO Applying_update ∈ events.
Definition rollback_attempted (events : list event) : Prop :=
  Log INFO Performing_rollback ∈ events.

(** The end of a cycle that applied an update: the restart callback, when
    one is set, is called at once. *)
Definition request_restart (_restart_callback : option callback) (w : world)
    : outcome unit * world :=
  match _restart_callback with
  | None => (Return tt, w)
  | Some Callback_returns => (Return tt, log_to w [Restart_callback])
  | Some (Callback_raises e) =>
      (Return tt,
       log_to (log_to w [Restart_callback]) [Log ERROR (Error_during_periodic_update_check e)])
  | Some Callback_replaces_process => (Replaced, log_to w [Restart_callback])
  end.

Definition no_stage_attempted (events : list event) : Prop :=
  ¬ download_attempted events ∧ ¬ backup_attempted events
  ∧ ¬ apply_attempted events ∧ ¬ rollback_attempted events.

(** A cycle applied an update when the orchestrator logged its success. *)
Definition applied (events : list event) : Prop :=
  Log INFO Update_completed_successfully ∈ events.

Definition not_completed (e : event) : Prop :=
  match e with
  | Log _ Update_completed_successfully => False
  | _ => True
  end.


(** The file name of the archive [_create_backup] writes: the name of
    [get_backup_path] with [".zip"] appended by [make_archive]. *)
Definition backup_archive_name (VERSION : string) : string :=
  name (get_backup_path VERSION) +:+ ".zip".

(** The listing [_cleanup_old_backups] works on, newest first, and its two
    parts: the entries up to the retention count and the entries beyond. *)
Definition listed_backups (w : world) : list (string * (Z * bytes)) :=
  merge_sort newer_first (glob_backups (files w)).
Definition kept_backups (w : world) : list (string * (Z * bytes)) :=
  take MAX_BACKUP_COUNT (listed_backups w).
Definition evicted_backups (w : world) : list (string * (Z * bytes)) :=
  drop MAX_BACKUP_COUNT (listed_backups w).

(** The comparison of [_verify_checksum]: the digest of the content against
    the expected value, both in lower case; a value that is not a string
    matches nothing. *)
Definition digest_matches `{Libraries} (content : bytes) (expected : json) : bool :=
  match expected with
  | JStr s => String.eqb (lower (sha256_hexdigest content)) (lower s)
  | _ => false
  end.

(** The scratch file of a download. *)
Definition package_file `{Libraries} (version : json) : string :=
  "update_" +:+ py_str version +:+ ".zip".

(** C2 as the specification states it: whenever the digest of a completely
    received download does not match the checksum value of the manifest, the
    update fails with a checksum error, the scratch file is gone, and
    neither backup nor installation is attempted. *)
Definition mismatch_rejected `{Libraries} (VERSION : string) (E : env)
    (d : list (string * json)) (w : world) : Prop :=
  ∀ version expected total_size chunks,
    assoc "version" d = Some version →
    assoc "checksum" d = Some expected →
    download_reply E = Download_body total_size chunks None →
    digest_matches (concat chunks) expected = false →
    let r := _perform_update_with_info VERSION E (JDict d) w in
    r.1 = Return false
    ∧ Log ERROR Checksum_verification_failed ∈ events_since w r.2
    ∧ temp_files r.2 !! package_file version = None
    ∧ ¬ backup_attempted (events_since w r.2)
    ∧ ¬ apply_attempted (events_since w r.2).


(** C4 as the specification states it: whatever the outcome of the update,
    the downloaded package file is not in the scratch directory
    afterwards. *)
Definition package_always_deleted `{Libraries} (VERSION : string) (E : env)
    (d : list (string * json)) (w : world) : Prop :=
  ∀ version, assoc "version" d = Some version →
    temp_files (_perform_update_with_info VERSION E (JDict d) w).2 !! package_file version
    = None.

(** Events of the stages other than the rollback and its announcement. *)
Definition not_rollback (e : event) : Prop :=
  match e with
  | Log _ Performing_rollback | Log _ Failed_to_apply_update_attempting_rollback => False
  | _ => True
  end.


(** The installation directory after the members of an archive were
    extracted over it, in order. *)
Definition extract_over (members : list (string * bytes)) (installation : gmap string bytes)
    : gmap string bytes :=
  foldl (λ m member, <[member.1 := member.2]> m) installation members.

(** Whether a character occurs in a string. *)
Fixpoint occurs (c : ascii) (s : string) : bool :=
  match s with
  | EmptyString => false
  | String a rest => Ascii.eqb a c || occurs c rest
  end.

(** The updates a stretch of the trace reports as completed: the lines
    [_perform_update_with_info] logs before it returns [True]. *)
Definition is_completion (e : event) : bool :=
  match e with
  | Log _ Update_completed_successfully => true
  | _ => false
  end.

Definition completed_updates (events : list event) : nat :=
  length (List.filter is_completion events).

(** * Properties *)

(** ** The monad *)

Section Monad_rules.

Context {A B : Type}.

Lemma returns_ret (a : A) : returns (ret a).
Proof. intros w. by exists a, w. Qed.

Lemma returns_bind (m : M A) (k : A → M B) :
  returns m → (∀ a, returns (k a)) → returns (bind m k).
Proof.
  intros Hm Hk w. destruct (Hm w) as (a & w1 & Ha).
  destruct (Hk a w1) as (b & w2 & Hb). exists b, w2.
  unfold bind. by rewrite Ha.
Qed.

Lemma returns_catchable (m : M A) : returns m → catchable m.
Proof. intros Hm w. destruct (Hm w) as (a & w1 & ->). done. Qed.

Lemma catchable_ret (a : A) : catchable (ret a).
Proof. done. Qed.

Lemma catchable_raise (e : exn) : catchable (@raise A e).
Proof. done. Qed.

Lemma catchable_bind (m : M A) (k : A → M B) :
  catchable m → (∀ a, catchable (k a)) → catchable (bind m k).
Proof.
  intros Hm Hk w. specialize (Hm w). unfold bind.
  destruct (m w) as [[a|e|] w1]; simpl in *; [apply Hk | done | done].
Qed.

Lemma catchable_try_except (body : M A) (handler : exn → M A) :
  catchable body → (∀ e, catchable (handler e)) → catchable (try_except body handler).
Proof.
  intros Hb Hh w. specialize (Hb w). unfold try_except.
  destruct (body w) as [[a|e|] w1]; simpl in *; [done | apply Hh | done].
Qed.

(** A [try] whose handlers return makes a computation that returns. *)
Lemma returns_try_except (body : M A) (handler : exn → M A) :
  catchable body → (∀ e, returns (handler e)) → returns (try_except body handler).
Proof.
  intros Hb Hh w. specialize (Hb w). unfold try_except.
  destruct (body w) as [[a|e|] w1]; simpl in *; [by eexists _, _ | apply Hh | done].
Qed.

End Monad_rules.

Lemma returns_emit (e : event) : returns (emit e).
Proof. intros w. by eexists _, _. Qed.

Lemma returns_get_files : returns get_files.
Proof. intros w. by eexists _, _. Qed.

Lemma returns_put_files (f : fs) : returns (put_files f).
Proof. intros w. by eexists _, _. Qed.

Lemma catchable_for_each {A} (xs : list A) (body : A → M unit) :
  (∀ x, catchable (body x)) → catchable (for_each xs body).
Proof.
  intros Hb. induction xs as [|x xs IH]; simpl.
  - apply catchable_ret.
  - apply catchable_bind; [apply Hb | intros _; apply IH].
Qed.

Section Respects_rules.

Context (R : relation world) `{!PreOrder R}.
Context {A B : Type}.

Lemma respects_ret (a : A) : respects R (ret a).
Proof. intros w. simpl. reflexivity. Qed.

Lemma respects_raise (e : exn) : respects R (@raise A e).
Proof. intros w. simpl. reflexivity. Qed.

Lemma respects_get_files : respects R get_files.
Proof. intros w. simpl. reflexivity. Qed.

Lemma respects_bind (m : M A) (k : A → M B) :
  respects R m → (∀ a, respects R (k a)) → respects R (bind m k).
Proof.
  intros Hm Hk w. specialize (Hm w). unfold bind.
  destruct (m w) as [[a|e|] w1]; simpl in *; [|done..].
  etrans; [exact Hm | apply Hk].
Qed.

Lemma respects_try_except (body : M A) (handler : exn → M A) :
  respects R body → (∀ e, respects R (handler e)) → respects R (try_except body handler).
Proof.
  intros Hb Hh w. specialize (Hb w). unfold try_except.
  destruct (body w) as [[a|e|] w1]; simpl in *; [done | | done].
  etrans; [exact Hb | apply Hh].
Qed.

End Respects_rules.

Lemma respects_for_each (R : relation world) `{!PreOrder R} {A} (xs : list A)
    (body : A → M unit) :
  (∀ x, respects R (body x)) → respects R (for_each xs body).
Proof.
  intros Hb. induction xs as [|x xs IH]; simpl.
  - apply respects_ret, _.
  - apply respects_bind; [apply _ | apply Hb | intros _; apply IH].
Qed.

Lemma respects_run (R : relation world) {A} (m : M A) w r w' :
  respects R m → m w = (r, w') → R w w'.
Proof. intros Hm Hrun. specialize (Hm w). by rewrite Hrun in Hm. Qed.

Global Instance same_preorder {X} (part : world → X) : PreOrder (same part).
Proof.
  split.
  - by intros w.
  - intros w1 w2 w3 H12 H23. unfold same in *. congruence.
Qed.

Global Instance emits_preorder (P : event → Prop) : PreOrder (emits P).
Proof.
  split.
  - intros w. exists []. by rewrite app_nil_r.
  - intros w1 w2 w3 (n1 & H1 & F1) (n2 & H2 & F2). exists (n1 ++ n2). split.
    + by rewrite H2, H1, app_assoc.
    + by apply Forall_app.
Qed.

(** ** Primitive operations *)

Create HintDb updater.

(** Decomposes a goal [respects R m] along the structure of [m]. *)
Ltac respects_step :=
  lazymatch goal with
  | |- respects _ (ret _) => apply respects_ret; apply _
  | |- respects _ (raise _) => apply respects_raise; apply _
  | |- respects _ get_files => apply respects_get_files; apply _
  | |- respects _ (bind _ _) => apply respects_bind; [apply _ | | intros ?]
  | |- respects _ (try_except _ _) => apply respects_try_except; [apply _ | | intros ?]
  | |- respects _ (for_each _ _) => apply respects_for_each; [apply _ | intros ?]
  | |- respects _ (match ?x with _ => _ end) => destruct x
  | |- respects _ _ => solve [eauto with updater]
  end.
Ltac respects_auto := repeat respects_step.

(** A computation that leaves the trace alone emits nothing; one that leaves
    the world alone respects every preorder. *)
Lemma silent_emits {A} (P : event → Prop) (m : M A) :
  respects (same trace) m → respects (emits P) m.
Proof. intros Hm w. exists []. split; [by rewrite app_nil_r, (Hm w) | constructor]. Qed.

Lemma respects_emit_emits (P : event → Prop) (e : event) : P e → respects (emits P) (emit e).
Proof. intros He w. exists [e]. split; [done | by constructor]. Qed.

(** The file operations are silent. *)
Lemma silent_path_exists p : respects (same trace) (path_exists p).
Proof. done. Qed.

Lemma silent_read_file p : respects (same trace) (read_file p).
Proof. intros w. unfold read_file, bind, get_files. by destruct (lookup_file _ _). Qed.

Lemma silent_unlink p : respects (same trace) (unlink p).
Proof. intros w. unfold unlink, bind, get_files. by destruct (lookup_file _ _). Qed.

Lemma silent_open_wb n : respects (same trace) (open_wb n).
Proof. done. Qed.

Lemma silent_write n chunk : respects (same trace) (write n chunk).
Proof. done. Qed.

Lemma silent_extract_member member : respects (same trace) (extract_member member).
Proof. done. Qed.

(** Reading changes no file. *)
Lemma path_exists_same {X} (part : world → X) p : respects (same part) (path_exists p).
Proof. done. Qed.

Lemma read_file_same {X} (part : world → X) p : respects (same part) (read_file p).
Proof. intros w. unfold read_file, bind, get_files. by destruct (lookup_file _ _). Qed.

(** What each writing operation leaves alone. *)
Lemma unlink_temp_backups n : respects (same backups) (unlink (TEMP_DIR // n)).
Proof. intros w. unfold unlink, bind, get_files. by destruct (lookup_file _ _). Qed.

Lemma unlink_temp_installation n : respects (same installation) (unlink (TEMP_DIR // n)).
Proof. intros w. unfold unlink, bind, get_files. by destruct (lookup_file _ _). Qed.

Lemma unlink_backup_temp_files n : respects (same temp_files) (unlink (BACKUP_DIR // n)).
Proof. intros w. unfold unlink, bind, get_files. by destruct (lookup_file _ _). Qed.

Lemma unlink_backup_installation n : respects (same installation) (unlink (BACKUP_DIR // n)).
Proof. intros w. unfold unlink, bind, get_files. by destruct (lookup_file _ _). Qed.

Lemma open_wb_backups n : respects (same backups) (open_wb n).
Proof. done. Qed.

Lemma open_wb_installation n : respects (same installation) (open_wb n).
Proof. done. Qed.

Lemma write_backups n chunk : respects (same backups) (write n chunk).
Proof. done. Qed.

Lemma write_installation n chunk : respects (same installation) (write n chunk).
Proof. done. Qed.

Lemma extract_member_temp_files member : respects (same temp_files) (extract_member member).
Proof. done. Qed.

Lemma extract_member_backups member : respects (same backups) (extract_member member).
Proof. done. Qed.

Lemma emit_temp_files e : respects (same temp_files) (emit e).
Proof. done. Qed.

Lemma emit_backups e : respects (same backups) (emit e).
Proof. done. Qed.

Lemma emit_installation e : respects (same installation) (emit e).
Proof. done. Qed.

#[global] Hint Resolve silent_path_exists silent_read_file silent_unlink silent_open_wb
  silent_write silent_extract_member path_exists_same read_file_same
  unlink_temp_backups unlink_temp_installation unlink_backup_temp_files
  unlink_backup_installation open_wb_backups open_wb_installation write_backups
  write_installation extract_member_temp_files extract_member_backups
  emit_temp_files emit_backups emit_installation : updater.
#[global] Hint Extern 2 (respects (emits _) _) => apply silent_emits : updater.
#[global] Hint Extern 1 (respects (emits _) (emit _)) =>
  apply respects_emit_emits; simpl; done : updater.
#[global] Hint Extern 1 (respects (emits _) (logger_info _)) =>
  apply respects_emit_emits; simpl; done : updater.
#[global] Hint Extern 1 (respects (emits _) (logger_error _)) =>
  apply respects_emit_emits; simpl; done : updater.
#[global] Hint Extern 1 (respects (same temp_files) (logger_info _)) => apply emit_temp_files : updater.
#[global] Hint Extern 1 (respects (same temp_files) (logger_error _)) => apply emit_temp_files : updater.
#[global] Hint Extern 1 (respects (same backups) (logger_info _)) => apply emit_backups : updater.
#[global] Hint Extern 1 (respects (same backups) (logger_error _)) => apply emit_backups : updater.
#[global] Hint Extern 1 (respects (same installation) (logger_info _)) => apply emit_installation : updater.
#[global] Hint Extern 1 (respects (same installation) (logger_error _)) => apply emit_installation : updater.

(** Decomposes a goal [returns m] or [catchable m] along the structure of
    [m]. *)
Ltac returns_step :=
  cbv zeta;
  lazymatch goal with
  | |- returns (ret _) => apply returns_ret
  | |- returns (bind _ _) => apply returns_bind; [| intros ?]
  | |- returns (try_except _ _) => apply returns_try_except; [| intros ?]
  | |- returns (match ?x with _ => _ end) => destruct x
  | |- returns _ => solve [eauto with updater]
  | |- catchable (ret _) => apply catchable_ret
  | |- catchable (raise _) => apply catchable_raise
  | |- catchable (bind _ _) => apply catchable_bind; [| intros ?]
  | |- catchable (try_except _ _) => apply catchable_try_except; [| intros ?]
  | |- catchable (for_each _ _) => apply catchable_for_each; intros ?
  | |- catchable (match ?x with _ => _ end) => destruct x
  | |- catchable _ => solve [apply returns_catchable; eauto with updater | eauto with updater]
  end.
Ltac returns_auto := repeat returns_step.

Lemma returns_logger_info msg : returns (logger_info msg).
Proof. apply returns_emit. Qed.

Lemma returns_logger_error msg : returns (logger_error msg).
Proof. apply returns_emit. Qed.

Lemma returns_path_exists p : returns (path_exists p).
Proof. intros w. by eexists _, _. Qed.

Lemma returns_open_wb n : returns (open_wb n).
Proof. intros w. by eexists _, _. Qed.

Lemma returns_write n chunk : returns (write n chunk).
Proof. intros w. by eexists _, _. Qed.

Lemma returns_extract_member member : returns (extract_member member).
Proof. intros w. by eexists _, _. Qed.

Lemma catchable_read_file p : catchable (read_file p).
Proof. intros w. unfold read_file, bind, get_files. by destruct (lookup_file _ _). Qed.

Lemma catchable_unlink p : catchable (unlink p).
Proof. intros w. unfold unlink, bind, get_files. by destruct (lookup_file _ _). Qed.

Lemma catchable_py_get obj key : catchable (py_get obj key).
Proof. by destruct obj. Qed.

Lemma catchable_py_getitem obj key : catchable (py_getitem obj key).
Proof. destruct obj; try done. intros w. simpl. by destruct (assoc key d). Qed.

Lemma catchable_py_lower v : catchable (py_lower v).
Proof. by destruct v. Qed.

#[global] Hint Resolve returns_emit returns_get_files returns_put_files returns_logger_info
  returns_logger_error returns_path_exists returns_open_wb returns_write
  returns_extract_member catchable_read_file catchable_unlink catchable_py_get
  catchable_py_getitem catchable_py_lower : updater.

(** ** The methods return *)

Section Methods.

Context {libs : Libraries}.
Variable VERSION : string.

Lemma returns_write_file p mtime content : returns (write_file p mtime content).
Proof. unfold write_file. returns_auto. Qed.
Hint Resolve returns_write_file : updater.

Lemma catchable_make_archive E base_name : catchable (make_archive E base_name).
Proof. unfold make_archive. returns_auto. Qed.

Lemma catchable_extractall members i fault : catchable (extractall members i fault).
Proof.
  revert i. induction members as [|member rest IH]; intros i; simpl; [apply catchable_ret |].
  destruct fault as [ft|]; [destruct (extract_at ft =? i)%nat |]; returns_auto; apply IH.
Qed.

Lemma catchable_iter_content n total_size chunks downloaded :
  catchable (iter_content n total_size chunks downloaded).
Proof.
  revert downloaded. induction chunks as [|chunk rest IH]; intros downloaded; simpl;
    [apply catchable_ret |].
  destruct chunk; [apply IH |]. returns_auto; apply IH.
Qed.

Lemma catchable_semver_compare_call ver1 ver2 : catchable (semver_compare_call ver1 ver2).
Proof. unfold semver_compare_call. returns_auto. Qed.

Hint Resolve catchable_make_archive catchable_extractall catchable_iter_content
  catchable_semver_compare_call : updater.

Lemma returns_get_update_info E : returns (_get_update_info E).
Proof. unfold _get_update_info. returns_auto. Qed.

Lemma returns_create_backup E : returns (_create_backup VERSION E).
Proof. unfold _create_backup. returns_auto. Qed.

Lemma returns_verify_checksum file_path expected : returns (_verify_checksum file_path expected).
Proof. unfold _verify_checksum. returns_auto. Qed.
Hint Resolve returns_verify_checksum : updater.

Lemma returns_download_update E update_info : returns (_download_update E update_info).
Proof. unfold _download_update. returns_auto. Qed.

Lemma returns_extract_zip_to_app_dir p fault : returns (_extract_zip_to_app_dir p fault).
Proof. unfold _extract_zip_to_app_dir. returns_auto. Qed.
Hint Resolve returns_extract_zip_to_app_dir : updater.

Lemma returns_apply_update E update_file : returns (_apply_update E update_file).
Proof. unfold _apply_update. returns_auto. Qed.

Lemma returns_rollback E : returns (_rollback VERSION E).
Proof. unfold _rollback. returns_auto. Qed.

Lemma returns_cleanup_temp_files : returns _cleanup_temp_files.
Proof. unfold _cleanup_temp_files. returns_auto. Qed.

Lemma returns_cleanup_old_backups : returns _cleanup_old_backups.
Proof. unfold _cleanup_old_backups. returns_auto. Qed.

Hint Resolve returns_get_update_info returns_create_backup returns_download_update
  returns_apply_update returns_rollback returns_cleanup_temp_files
  returns_cleanup_old_backups : updater.

Lemma returns_perform_update_with_info E update_info :
  returns (_perform_update_with_info VERSION E update_info).
Proof. unfold _perform_update_with_info. returns_auto. Qed.

End Methods.

#[global] Hint Resolve returns_write_file catchable_make_archive catchable_extractall
  catchable_iter_content catchable_semver_compare_call returns_verify_checksum
  returns_extract_zip_to_app_dir returns_get_update_info returns_create_backup
  returns_download_update returns_apply_update returns_rollback
  returns_cleanup_temp_files returns_cleanup_old_backups
  returns_perform_update_with_info : updater.

(** ** What each stage leaves alone *)

Section Frames.

Context {libs : Libraries}.
Variable VERSION : string.

Lemma silent_write_file p mtime content : respects (same trace) (write_file p mtime content).
Proof. intros w. unfold write_file, bind, get_files. by destruct (parent p). Qed.

Lemma silent_make_archive E base_name : respects (same trace) (make_archive E base_name).
Proof.
  intros w. unfold make_archive, write_file, bind, get_files.
  destruct (make_archive_fault E) as [[e [partial|]]|]; simpl; by destruct (parent base_name).
Qed.

Lemma make_archive_temp_files E :
  respects (same temp_files) (make_archive E (get_backup_path VERSION)).
Proof.
  intros w. unfold make_archive, write_file, bind, get_files.
  by destruct (make_archive_fault E) as [[e [partial|]]|].
Qed.

Lemma make_archive_installation E :
  respects (same installation) (make_archive E (get_backup_path VERSION)).
Proof.
  intros w. unfold make_archive, write_file, bind, get_files.
  by destruct (make_archive_fault E) as [[e [partial|]]|].
Qed.

Lemma extractall_respects (R : relation world) `{!PreOrder R} members i fault :
  (∀ member, respects R (extract_member member)) →
  respects R (extractall members i fault).
Proof.
  intros Hm. revert i. induction members as [|member rest IH]; intros i; simpl.
  - apply respects_ret, _.
  - destruct fault as [ft|]; [destruct (extract_at ft =? i)%nat |];
      respects_auto; solve [apply Hm | apply IH].
Qed.

Lemma iter_content_respects (R : relation world) `{!PreOrder R} n total_size chunks downloaded :
  (∀ chunk, respects R (write n chunk)) →
  (∀ d, respects R (logger_info (Download_progress d total_size))) →
  respects R (iter_content n total_size chunks downloaded).
Proof.
  intros Hw Hl. revert downloaded. induction chunks as [|chunk rest IH]; intros downloaded; simpl.
  - apply respects_ret, _.
  - destruct chunk; [apply IH |]. respects_auto; solve [apply Hw | apply Hl | apply IH].
Qed.

Hint Resolve silent_write_file silent_make_archive make_archive_temp_files
  make_archive_installation : updater.
Hint Extern 3 (respects _ (extractall _ _ _)) =>
  apply extractall_respects; [apply _ | intros ?] : updater.
Hint Extern 3 (respects _ (iter_content _ _ _ _)) =>
  apply iter_content_respects; [apply _ | intros ? | intros ?] : updater.

(** Creating the backup, applying the update and rolling back leave the
    scratch directory alone. *)
Lemma create_backup_temp_files E : respects (same temp_files) (_create_backup VERSION E).
Proof. unfold _create_backup. cbv zeta. respects_auto. Qed.

Lemma extract_zip_temp_files p fault :
  respects (same temp_files) (_extract_zip_to_app_dir p fault).
Proof. unfold _extract_zip_to_app_dir. respects_auto. Qed.
Hint Resolve extract_zip_temp_files : updater.

Lemma apply_update_temp_files E update_file :
  respects (same temp_files) (_apply_update E update_file).
Proof. unfold _apply_update. respects_auto. Qed.

Lemma rollback_temp_files E : respects (same temp_files) (_rollback VERSION E).
Proof. unfold _rollback. cbv zeta. respects_auto. Qed.

Lemma cleanup_old_backups_temp_files : respects (same temp_files) _cleanup_old_backups.
Proof. unfold _cleanup_old_backups. cbv zeta. respects_auto. Qed.

(** Applying and rolling back leave the backups alone. *)
Lemma extract_zip_backups p fault : respects (same backups) (_extract_zip_to_app_dir p fault).
Proof. unfold _extract_zip_to_app_dir. respects_auto. Qed.
Hint Resolve extract_zip_backups : updater.

Lemma apply_update_backups E update_file : respects (same backups) (_apply_update E update_file).
Proof. unfold _apply_update. respects_auto. Qed.

Lemma rollback_backups E : respects (same backups) (_rollback VERSION E).
Proof. unfold _rollback. cbv zeta. respects_auto. Qed.

(** The download touches neither the backups nor the installation. *)
Lemma verify_checksum_same {X} (part : world → X) file_path expected :
  (∀ e, respects (same part) (emit e)) →
  respects (same part) (_verify_checksum file_path expected).
Proof.
  intros He. unfold _verify_checksum. cbv zeta. respects_auto; try apply He.
  destruct expected; simpl; apply respects_ret || apply respects_raise; apply _.
Qed.

Lemma download_update_backups E update_info :
  respects (same backups) (_download_update E update_info).
Proof.
  unfold _download_update. cbv zeta. respects_auto;
    try (apply verify_checksum_same; intros; apply emit_backups);
    destruct update_info; simpl; respects_auto.
Qed.

Lemma download_update_installation E update_info :
  respects (same installation) (_download_update E update_info).
Proof.
  unfold _download_update. cbv zeta. respects_auto;
    try (apply verify_checksum_same; intros; apply emit_installation);
    destruct update_info; simpl; respects_auto.
Qed.

End Frames.

#[global] Hint Resolve silent_write_file silent_make_archive make_archive_temp_files
  make_archive_installation extract_zip_temp_files extract_zip_backups : updater.
#[global] Hint Extern 3 (respects _ (extractall _ _ _)) =>
  apply extractall_respects; [apply _ | intros ?] : updater.
#[global] Hint Extern 3 (respects _ (iter_content _ _ _ _)) =>
  apply iter_content_respects; [apply _ | intros ? | intros ?] : updater.

(** ** The stages of one update *)

(** Shows that the trace of the goal grew by listed events of one kind. *)
Ltac emitted :=
  unfold emits, log_to; simpl; rewrite <- ?app_assoc; simpl;
  eexists; split; [reflexivity | repeat constructor].

Section Stages.

Context {libs : Libraries}.
Variable VERSION : string.

(** [_perform_update_with_info] runs download, backup, apply and cleanup in
    this order, stops at the first stage that fails, and rolls back only
    after a failed apply. *)
Lemma perform_update_stages E update_info w :
  ∃ downloaded w1,
    _download_update E update_info (log_to w [Log INFO Starting_update_process])
      = (Return downloaded, w1) ∧
    match downloaded with
    | None => _perform_update_with_info VERSION E update_info w = (Return false, w1)
    | Some update_file =>
        ∃ backed_up w2,
          _create_backup VERSION E w1 = (Return backed_up, w2) ∧
          if backed_up then
            ∃ applied w3,
              _apply_update E update_file w2 = (Return applied, w3) ∧
              if applied then
                ∃ w4 w5,
                  _cleanup_temp_files w3 = (Return tt, w4) ∧
                  _cleanup_old_backups w4 = (Return tt, w5) ∧
                  _perform_update_with_info VERSION E update_info w
                    = (Return true, log_to w5 [Log INFO Update_completed_successfully])
              else
                ∃ rolled_back w4,
                  _rollback VERSION E
                    (log_to w3 [Log ERROR Failed_to_apply_update_attempting_rollback])
                    = (Return rolled_back, w4) ∧
                  _perform_update_with_info VERSION E update_info w = (Return false, w4)
          else
            _perform_update_with_info VERSION E update_info w
              = (Return false, log_to w2 [Log ERROR Failed_to_create_backup])
    end.
Proof.
  destruct (returns_download_update E update_info
              (log_to w [Log INFO Starting_update_process])) as (downloaded & w1 & Hd).
  exists downloaded, w1. split; [done |].
  unfold _perform_update_with_info, try_except, bind, logger_info, logger_error, emit.
  fold (log_to w [Log INFO Starting_update_process]). rewrite Hd.
  destruct downloaded as [update_file|]; [| done].
  destruct (returns_create_backup VERSION E w1) as (backed_up & w2 & Hb).
  exists backed_up, w2. split; [done |]. rewrite Hb.
  destruct backed_up; simpl; [| done].
  destruct (returns_apply_update E update_file w2) as (applied & w3 & Ha).
  exists applied, w3. split; [done |]. rewrite Ha.
  destruct applied; simpl.
  - destruct (returns_cleanup_temp_files w3) as ([] & w4 & Ht).
    destruct (returns_cleanup_old_backups w4) as ([] & w5 & Ho).
    exists w4, w5. by rewrite Ht, Ho.
  - destruct (returns_rollback VERSION E
                (log_to w3 [Log ERROR Failed_to_apply_update_attempting_rollback]))
      as (rolled_back & w4 & Hr).
    exists rolled_back, w4. split; [done |].
    fold (log_to w3 [Log ERROR Failed_to_apply_update_attempting_rollback]). by rewrite Hr.
Qed.

(** [_check_and_update] either attempts no update, returns and leaves every
    file alone, or found a greater version, performs one update and ends on
    its result. *)
Lemma check_and_update_stages cb E w :
  (∃ w', _check_and_update VERSION cb E w = (Return tt, w')
         ∧ files w' = files w ∧ emits idle_event w w')
  ∨ (∃ d remote comparison updated w1,
       version_reply E = inr (JDict d) ∧
       assoc "version" d = Some (JStr remote) ∧
       semver_compare remote VERSION = Some comparison ∧ (0 < comparison)%Z ∧
       _perform_update_with_info VERSION E (JDict d)
         (log_to (log_to (log_to w [Log INFO Checking_for_updates])
                    [Log INFO (Current_version_Remote_version VERSION (JStr remote))])
            [Log INFO (Update_available (JStr remote))])
         = (Return updated, w1) ∧
       _check_and_update VERSION cb E w =
         if updated
         then request_restart cb
                (log_to w1 [Log INFO Update_completed_successfully_Requesting_restart])
         else (Return tt, log_to w1 [Log ERROR Update_failed_Continuing_with_current_version])).
Proof.
  unfold _check_and_update, _get_update_info, try_except, bind, logger_info, logger_error,
    emit, ret, raise.
  destruct (version_reply E) as [e|update_info] eqn:Hreply; simpl.
  { left. eexists. split; [reflexivity |]. split; [done | emitted]. }
  destruct (truthy update_info) eqn:Htruthy; simpl;
    [| left; eexists; split; [reflexivity |]; split; [done | emitted]].
  destruct update_info as [| | | | |d]; simpl;
    try (left; eexists; split; [reflexivity |]; split; [done | emitted]).
  destruct (assoc "version" d) as [remote_version|] eqn:Hassoc; simpl;
    [| left; eexists; split; [reflexivity |]; split; [done | emitted]].
  destruct (truthy remote_version) eqn:Hversion; simpl;
    [| left; eexists; split; [reflexivity |]; split; [done | emitted]].
  destruct remote_version as [| | |remote| |]; simpl;
    try (left; eexists; split; [reflexivity |]; split; [done | emitted]).
  destruct (semver_compare remote VERSION) as [comparison|] eqn:Hcompare; simpl;
    [| left; eexists; split; [reflexivity |]; split; [done | emitted]].
  destruct (0 <? comparison)%Z eqn:Hgreater; simpl;
    [| left; eexists; split; [reflexivity |]; split; [done | emitted]].
  right.
  match goal with
  | |- context [_perform_update_with_info VERSION E (JDict d) ?w0] =>
      destruct (returns_perform_update_with_info VERSION E (JDict d) w0)
        as (updated & w1 & Hperform)
  end.
  exists d, remote, comparison, updated, w1.
  split; [done |]. split; [done |]. split; [done |]. split; [by apply Z.ltb_lt |].
  split; [exact Hperform |].
  unfold log_to in Hperform. simpl in Hperform. rewrite Hperform.
  destruct updated; simpl; [| done].
  unfold request_restart, call_restart_callback, emit, bind, ret, raise, replace_process.
  by destruct cb as [[]|].
Qed.

(** Events of an idle cycle start no stage. *)
Lemma events_since_emits P w w' :
  emits P w w' → Forall P (events_since w w').
Proof.
  intros (new & Htrace & Hnew). unfold events_since. by rewrite Htrace, drop_app_length.
Qed.

Lemma idle_events_no_stage events :
  Forall idle_event events →
  ¬ download_attempted events ∧ ¬ backup_attempted events
  ∧ ¬ apply_attempted events ∧ ¬ rollback_attempted events.
Proof.
  intros Hidle. rewrite Forall_forall in Hidle.
  repeat split; [intros H | intros [archive H] | intros H | intros H];
    apply Hidle in H; exact H.
Qed.

End Stages.

(** ** Cycles that find nothing newer *)

Section No_update.

Context {libs : Libraries}.
Variable VERSION : string.

(** A cycle whose manifest version does not compare greater than the
    running version returns, leaves every file alone and starts no stage. *)
Lemma not_greater_idle cb E w d remote comparison :
  version_reply E = inr (JDict d) →
  assoc "version" d = Some (JStr remote) →
  semver_compare remote VERSION = Some comparison →
  (comparison ≤ 0)%Z →
  ∃ w', _check_and_update VERSION cb E w = (Return tt, w')
        ∧ files w' = files w
        ∧ no_stage_attempted (events_since w w').
Proof.
  intros Hreply Hversion Hcompare Hle.
  destruct (check_and_update_stages VERSION cb E w)
    as [(w' & Hrun & Hfiles & Hidle)
       | (d' & remote' & comparison' & updated & w1 & Hreply' & Hversion' & Hcompare' & Hlt & _)].
  - exists w'. split; [done |]. split; [done |].
    by apply idle_events_no_stage, events_since_emits.
  - rewrite Hreply in Hreply'. injection Hreply' as <-.
    rewrite Hversion in Hversion'. injection Hversion' as <-.
    rewrite Hcompare in Hcompare'. injection Hcompare' as <-. lia.
Qed.

(** C7: a cycle whose manifest version compares equal to the running version
    under [semver.compare] changes no file (no backup is created, no scratch
    file is written, the installation directory is as before), and starts
    none of the download, backup, apply and rollback stages. *)
Theorem equal_version_changes_nothing cb E w d remote :
  version_reply E = inr (JDict d) →
  assoc "version" d = Some (JStr remote) →
  semver_compare remote VERSION = Some 0%Z →
  ∃ w', _check_and_update VERSION cb E w = (Return tt, w')
        ∧ backups w' = backups w
        ∧ temp_files w' = temp_files w
        ∧ installation w' = installation w
        ∧ no_stage_attempted (events_since w w').
Proof.
  intros Hreply Hversion Hcompare.
  destruct (not_greater_idle cb E w d remote 0%Z) as (w' & Hrun & Hfiles & Hnone);
    [done | done | done | lia |].
  exists w'. unfold backups, temp_files, installation. by rewrite Hfiles.
Qed.

(** C10: a cycle whose manifest version parses and compares strictly less
    than the running version downloads nothing, creates no backup and leaves
    the installation directory as it was: a downgrade is never applied. *)
Theorem older_version_never_applied cb E w d remote comparison :
  version_reply E = inr (JDict d) →
  assoc "version" d = Some (JStr remote) →
  semver_compare remote VERSION = Some comparison →
  (comparison < 0)%Z →
  ∃ w', _check_and_update VERSION cb E w = (Return tt, w')
        ∧ ¬ download_attempted (events_since w w')
        ∧ temp_files w' = temp_files w
        ∧ ¬ backup_attempted (events_since w w')
        ∧ backups w' = backups w
        ∧ ¬ apply_attempted (events_since w w')
        ∧ installation w' = installation w.
Proof.
  intros Hreply Hversion Hcompare Hlt.
  destruct (not_greater_idle cb E w d remote comparison)
    as (w' & Hrun & Hfiles & Hdownload & Hbackup & Happly & _);
    [done | done | done | lia |].
  exists w'. unfold backups, temp_files, installation. by rewrite Hfiles.
Qed.

End No_update.

Lemma equal_version_changes_nothing_witness :
  let E := Example.cycle Example.manifest_same Example.package in
  ∃ w', _check_and_update VERSION_in_source None E Example.installed = (Return tt, w')
        ∧ backups w' = backups Example.installed
        ∧ temp_files w' = temp_files Example.installed
        ∧ installation w' = installation Example.installed
        ∧ no_stage_attempted (events_since Example.installed w').
Proof.
  exact (equal_version_changes_nothing VERSION_in_source None
           (Example.cycle Example.manifest_same Example.package) Example.installed
           _ "1.0.16" eq_refl eq_refl eq_refl).
Defined.

Lemma older_version_never_applied_witness :
  let E := Example.cycle Example.manifest_older Example.package in
  ∃ w', _check_and_update VERSION_in_source None E Example.installed = (Return tt, w')
        ∧ ¬ download_attempted (events_since Example.installed w')
        ∧ temp_files w' = temp_files Example.installed
        ∧ ¬ backup_attempted (events_since Example.installed w')
        ∧ backups w' = backups Example.installed
        ∧ ¬ apply_attempted (events_since Example.installed w')
        ∧ installation w' = installation Example.installed.
Proof.
  refine (older_version_never_applied VERSION_in_source None
            (Example.cycle Example.manifest_older Example.package) Example.installed
            _ "1.0.9" (-1)%Z eq_refl eq_refl eq_refl _).
  reflexivity.
Defined.

(** ** Only a completed update logs its success *)

Section Not_completed.

Context {libs : Libraries}.
Variable VERSION : string.

Lemma py_get_emits P obj key : respects (emits P) (py_get obj key).
Proof. apply silent_emits. intros w. by destruct obj. Qed.

Lemma py_getitem_emits P obj key : respects (emits P) (py_getitem obj key).
Proof. apply silent_emits. intros w. destruct obj; try done. simpl. by destruct (assoc key d). Qed.

Lemma py_lower_emits P v : respects (emits P) (py_lower v).
Proof. apply silent_emits. intros w. by destruct v. Qed.

Hint Resolve py_get_emits py_getitem_emits py_lower_emits : updater.

Lemma verify_checksum_not_completed file_path expected :
  respects (emits not_completed) (_verify_checksum file_path expected).
Proof. unfold _verify_checksum. cbv zeta. respects_auto. Qed.
Hint Resolve verify_checksum_not_completed : updater.



Lemma extract_zip_not_completed p fault :
  respects (emits not_completed) (_extract_zip_to_app_dir p fault).
Proof. unfold _extract_zip_to_app_dir. respects_auto. Qed.
Hint Resolve extract_zip_not_completed : updater.



Lemma emits_log_to P w events : Forall P events → emits P w (log_to w events).
Proof. intros Hev. by exists events. Qed.


End Not_completed.

#[global] Hint Resolve py_get_emits py_getitem_emits py_lower_emits : updater.

(** ** The scheduler *)

Section Scheduler.

Context {libs : Libraries}.
Variable VERSION : string.

(** One turn of the loop: the cycle, then [time.sleep(10)], then the rest;
    an exception or the replacement of the process would end the loop. *)
Lemma periodic_update_check_cons cb E later w :
  _periodic_update_check VERSION cb (E :: later) w =
    match _check_and_update VERSION cb E w with
    | (Return _, w') => _periodic_update_check VERSION cb later (log_to w' [Sleep 10])
    | (Raise e, w') => (Raise e, w')
    | (Replaced, w') => (Replaced, w')
    end.
Proof. simpl. unfold bind. by destruct (_check_and_update VERSION cb E w) as [[[]|e|] w']. Qed.

(** The cycle returns unless the callback replaced the process after an
    applied update. *)
Lemma check_and_update_outcome cb E w :
  (∃ w', _check_and_update VERSION cb E w = (Return tt, w'))
  ∨ (∃ d w0 w1,
       cb = Some Callback_replaces_process ∧
       _perform_update_with_info VERSION E (JDict d) w0 = (Return true, w1) ∧
       _check_and_update VERSION cb E w =
         (Replaced,
          log_to (log_to w1 [Log INFO Update_completed_successfully_Requesting_restart])
            [Restart_callback])).
Proof.
  destruct (check_and_update_stages VERSION cb E w)
    as [(w' & Hrun & _)
       | (d & remote & comparison & updated & w1 & _ & _ & _ & _ & Hperform & Hrun)].
  - left. by exists w'.
  - destruct updated; [| left; by eexists].
    destruct cb as [[|e|]|]; simpl in Hrun; try (left; by eexists).
    right. exists d. eexists _, w1. split; [done |]. split; [exact Hperform | done].
Qed.




Lemma events_since_log_to P w w1 events :
  emits P w w1 → events_since w (log_to w1 events) = events_since w w1 ++ events.
Proof.
  intros (new & Htrace & _). unfold events_since, log_to. simpl.
  by rewrite Htrace, <- app_assoc, !drop_app_length.
Qed.

(** C5: whatever the server answers and whichever operation fails, the
    periodic check does not raise: it returns, and then the scheduler sleeps
    and goes on with the next cycle; or, after an update was applied, the
    restart callback replaced the process.  Every failure of the update itself
    is turned into the value [False] of [_perform_update_with_info]. *)
Theorem check_never_raises cb E later w :
  ((∃ w', _check_and_update VERSION cb E w = (Return tt, w')
          ∧ _periodic_update_check VERSION cb (E :: later) w
            = _periodic_update_check VERSION cb later (log_to w' [Sleep 10]))
   ∨ (∃ d w0 w1,
        cb = Some Callback_replaces_process ∧
        _perform_update_with_info VERSION E (JDict d) w0 = (Return true, w1) ∧
        _check_and_update VERSION cb E w =
          (Replaced,
           log_to (log_to w1 [Log INFO Update_completed_successfully_Requesting_restart])
             [Restart_callback])))
  ∧ (∀ update_info w0, ∃ updated w1,
       _perform_update_with_info VERSION E update_info w0 = (Return updated, w1)).
Proof.
  split; [| intros update_info w0; apply returns_perform_update_with_info].
  destruct (check_and_update_outcome cb E w) as [(w' & Hrun) | Hreplaced]; [| by right].
  left. exists w'. split; [done |]. by rewrite periodic_update_check_cons, Hrun.
Qed.



End Scheduler.


(** ** Backups *)

Section Backups.

Context {libs : Libraries}.
Variable VERSION : string.

Lemma backup_archive_name_eq : backup_archive_name VERSION = "nametag_v" +:+ VERSION +:+ ".zip".
Proof. reflexivity. Qed.

(** [_create_backup] without a fault writes the archive of the installation
    directory into the slot of the running version. *)
Lemma create_backup_ok E w :
  make_archive_fault E = None →
  _create_backup VERSION E w =
    (Return true,
     mkWorld
       (mkFs (temp_files w)
          (<[backup_archive_name VERSION :=
               (now E, zip_archive (map_to_list (installation w)))]> (backups w))
          (installation w))
       (trace w ++ [Log INFO (Creating_backup (backup_archive_name VERSION));
                    Log INFO Backup_created_successfully])).
Proof.
  intros Hfault.
  unfold _create_backup, make_archive, write_file, try_except, bind, logger_info, emit,
    get_files, put_files, ret.
  rewrite Hfault. simpl. by rewrite <- app_assoc.
Qed.

(** C8: the backup archive is named from the application identifier and the
    running version only, whatever the cycle received from the server: it is
    [nametag_v<VERSION>.zip].  The running version has this one slot: a
    backup made again while the same version runs replaces the archive in
    the slot, and the backup directory holds the same names as after the first
    backup, not one more. *)
Theorem backup_slot_of_running_version E1 E2 w :
  make_archive_fault E1 = None →
  make_archive_fault E2 = None →
  ∃ w1 w2,
    _create_backup VERSION E1 w = (Return true, w1)
    ∧ _create_backup VERSION E2 w1 = (Return true, w2)
    ∧ backups w1 =
        <["nametag_v" +:+ VERSION +:+ ".zip" :=
            (now E1, zip_archive (map_to_list (installation w)))]> (backups w)
    ∧ backups w2 =
        <["nametag_v" +:+ VERSION +:+ ".zip" :=
            (now E2, zip_archive (map_to_list (installation w)))]> (backups w)
    ∧ dom (backups w2) = dom (backups w1)
    ∧ size (backups w2) = size (backups w1).
Proof.
  intros Hfault1 Hfault2. eexists _, _.
  split; [by apply create_backup_ok |]. split; [by apply create_backup_ok |].
  unfold backups, installation. simpl. rewrite backup_archive_name_eq.
  split; [done |]. rewrite insert_insert_eq. split; [done |].
  split; [by rewrite !dom_insert_L |].
  rewrite <- !size_dom. by rewrite !dom_insert_L.
Qed.

End Backups.

Lemma backup_slot_of_running_version_witness :
  let E := Example.cycle Example.manifest Example.package in
  ∃ w1 w2,
    _create_backup VERSION_in_source E Example.installed = (Return true, w1)
    ∧ _create_backup VERSION_in_source E w1 = (Return true, w2)
    ∧ backups w1 =
        <["nametag_v" +:+ VERSION_in_source +:+ ".zip" :=
            (now E, zip_archive (map_to_list (installation Example.installed)))]>
          (backups Example.installed)
    ∧ backups w2 =
        <["nametag_v" +:+ VERSION_in_source +:+ ".zip" :=
            (now E, zip_archive (map_to_list (installation Example.installed)))]>
          (backups Example.installed)
    ∧ dom (backups w2) = dom (backups w1)
    ∧ size (backups w2) = size (backups w1).
Proof.
  exact (backup_slot_of_running_version VERSION_in_source
           (Example.cycle Example.manifest Example.package)
           (Example.cycle Example.manifest Example.package)
           Example.installed eq_refl eq_refl).
Defined.

(** ** Eviction of old backups *)

Global Instance newer_first_trans : Transitive newer_first.
Proof. intros a b c. unfold newer_first. lia. Qed.

Global Instance newer_first_total : Total newer_first.
Proof. intros a b. unfold newer_first. lia. Qed.

Lemma lookup_foldl_delete {V} (l : list (string * V)) (m : gmap string V) k :
  foldl (λ m b, delete b.1 m) m l !! k = if decide (k ∈ l.*1) then None else m !! k.
Proof.
  revert m. induction l as [|b l IH]; intros m.
  - destruct (decide (k ∈ ([] : list (string * V)).*1)) as [Hin|]; [| done].
    by apply elem_of_nil in Hin.
  - cbn [foldl]. rewrite IH, fmap_cons. clear IH.
    destruct (decide (k = b.1)) as [->|Hne].
    + rewrite lookup_delete_eq, (decide_True _ _ (list_elem_of_here b.1 l.*1)).
      by destruct (decide _).
    + rewrite lookup_delete_ne by done.
      destruct (decide (k ∈ l.*1)) as [Hin|Hin].
      * rewrite decide_True; [done | by apply list_elem_of_further].
      * rewrite decide_False; [done |]. by intros [->|?]%elem_of_cons.
Qed.

Section Eviction.

Implicit Types (l : list (string * (Z * bytes))) (m : gmap string (Z * bytes)).

(** The loop [for backup in backups[MAX_BACKUP_COUNT:]] unlinks every listed
    file and logs it. *)
Lemma evict_loop l w :
  NoDup l.*1 →
  (∀ b, b ∈ l → is_Some (backups w !! b.1)) →
  for_each l
    (λ backup, unlink (BACKUP_DIR // backup.1) ;;; logger_info (Removed_old_backup backup.1)) w
  = (Return tt,
     mkWorld
       (mkFs (temp_files w) (foldl (λ m b, delete b.1 m) (backups w) l) (installation w))
       (trace w ++ ((λ b, Log INFO (Removed_old_backup b.1)) <$> l))).
Proof.
  revert w. induction l as [|b l IH]; intros w Hnodup Hpresent.
  - simpl. unfold ret. rewrite app_nil_r. by destruct w as [[]].
  - simpl in Hnodup. apply NoDup_cons in Hnodup as [Hfresh Hnodup].
    destruct (Hpresent b) as [data Hdata]; [set_solver |].
    cbn [for_each]. unfold bind at 1. unfold bind at 1.
    unfold unlink, bind, get_files, put_files, logger_info, emit, lookup_file. simpl.
    unfold backups in Hdata. rewrite Hdata. simpl.
    rewrite IH.
    + simpl. unfold temp_files, backups, installation. simpl. by rewrite <- app_assoc.
    + done.
    + intros b' Hb'. unfold backups. simpl.
      rewrite lookup_delete_ne; [apply Hpresent; set_solver |].
      intros Heq. apply Hfresh. rewrite Heq. by apply list_elem_of_fmap_2.
Qed.

Lemma elem_of_glob_backups f n b :
  (n, b) ∈ glob_backups f ↔ backup_dir f !! n = Some b ∧ backup_glob n = true.
Proof.
  unfold glob_backups. rewrite list_elem_of_filter, elem_of_map_to_list. simpl. tauto.
Qed.

Lemma NoDup_glob_backups f : NoDup (glob_backups f).*1.
Proof.
  unfold glob_backups.
  apply (sublist_NoDup _ ((map_to_list (backup_dir f)).*1)).
  - apply NoDup_fst_map_to_list.
  - apply fmap_sublist, sublist_filter.
Qed.

Lemma listed_backups_Permutation w : listed_backups w ≡ₚ glob_backups (files w).
Proof. apply merge_sort_Permutation. Qed.

Lemma NoDup_listed_backups w : NoDup (listed_backups w).*1.
Proof. rewrite listed_backups_Permutation. apply NoDup_glob_backups. Qed.

Lemma listed_kept_evicted w : listed_backups w = kept_backups w ++ evicted_backups w.
Proof. unfold kept_backups, evicted_backups. by rewrite take_drop. Qed.

Lemma elem_of_listed_backups w n b :
  (n, b) ∈ listed_backups w ↔ backups w !! n = Some b ∧ backup_glob n = true.
Proof. rewrite listed_backups_Permutation. apply elem_of_glob_backups. Qed.

Lemma kept_not_evicted w n b : (n, b) ∈ kept_backups w → n ∉ (evicted_backups w).*1.
Proof.
  intros Hkept Hevicted. pose proof (NoDup_listed_backups w) as Hnodup.
  rewrite listed_kept_evicted, fmap_app in Hnodup.
  apply NoDup_app in Hnodup as (_ & Hdisjoint & _).
  apply (Hdisjoint n); [| done]. by apply (list_elem_of_fmap_2 fst _ (n, b)).
Qed.

Lemma elem_of_kept_backups w n b :
  (n, b) ∈ kept_backups w ↔ (n, b) ∈ listed_backups w ∧ n ∉ (evicted_backups w).*1.
Proof.
  split.
  - intros Hkept. split; [| by eapply kept_not_evicted].
    rewrite listed_kept_evicted. apply elem_of_app. by left.
  - intros [Hlisted Hnot]. rewrite listed_kept_evicted in Hlisted.
    apply elem_of_app in Hlisted as [Hkept|Hevicted]; [done |].
    exfalso. apply Hnot. by apply (list_elem_of_fmap_2 fst _ (n, b)).
Qed.

(** What [_cleanup_old_backups] does: it unlinks the entries of the listing
    beyond the retention count, logs each, and touches nothing else. *)
Lemma cleanup_old_backups_run w :
  _cleanup_old_backups w =
    (Return tt,
     mkWorld
       (mkFs (temp_files w)
          (foldl (λ m b, delete b.1 m) (backups w) (evicted_backups w))
          (installation w))
       (trace w ++ ((λ b, Log INFO (Removed_old_backup b.1)) <$> evicted_backups w))).
Proof.
  unfold _cleanup_old_backups, try_except. unfold bind at 1. unfold get_files at 1.
  cbv zeta. fold (listed_backups w). fold (evicted_backups w).
  rewrite evict_loop; [done | |].
  - pose proof (NoDup_listed_backups w) as Hnodup.
    rewrite listed_kept_evicted, fmap_app in Hnodup.
    by apply NoDup_app in Hnodup as (_ & _ & Hnodup).
  - intros [n b] Hevicted. exists b. simpl.
    apply (elem_of_listed_backups w n b).
    rewrite listed_kept_evicted. apply elem_of_app. by right.
Qed.


End Eviction.

(** ** Running a computation step by step *)

Lemma bind_run {A B} (m : M A) (k : A → M B) w a w' r :
  m w = (Return a, w') → k a w' = r → bind m k w = r.
Proof. intros Hm Hk. unfold bind. by rewrite Hm. Qed.

Lemma bind_raises {A B} (m : M A) (k : A → M B) w e w' :
  m w = (Raise e, w') → bind m k w = (Raise e, w').
Proof. intros Hm. unfold bind. by rewrite Hm. Qed.

Lemma try_except_returns {A} (body : M A) handler w a w' :
  body w = (Return a, w') → try_except body handler w = (Return a, w').
Proof. intros Hb. unfold try_except. by rewrite Hb. Qed.

Lemma try_except_handles {A} (body : M A) handler w e w' r :
  body w = (Raise e, w') → handler e w' = r → try_except body handler w = r.
Proof. intros Hb Hh. unfold try_except. by rewrite Hb. Qed.

(** ** The download *)

Section Download.

Context {libs : Libraries}.

(** Streaming the body appends the chunks to the open scratch file and logs
    only progress. *)
Lemma iter_content_run n total_size chunks downloaded w content :
  temp_files w !! n = Some content →
  ∃ progress,
    Forall download_event progress
    ∧ iter_content n total_size chunks downloaded w =
        (Return tt,
         mkWorld
           (mkFs (<[n := content ++ concat chunks]> (temp_files w)) (backups w) (installation w))
           (trace w ++ progress)).
Proof.
  revert downloaded w content. induction chunks as [|chunk rest IH];
    intros downloaded w content Hopen.
  - exists []. split; [constructor |]. simpl. unfold ret.
    rewrite !app_nil_r, insert_id by done. by destruct w as [[]].
  - destruct chunk as [|byte chunk].
    + simpl. by apply IH.
    + cbn [iter_content].
      set (w1 := mkWorld
             (mkFs (<[n := content ++ byte :: chunk]> (temp_files w)) (backups w)
                (installation w)) (trace w)).
      assert (write n (byte :: chunk) w = (Return tt, w1)) as Hwrite.
      { unfold write, bind, get_files, put_files, w1, temp_files in *. by rewrite Hopen. }
      destruct (0 <? total_size)%Z.
      * destruct (IH (downloaded + Z.of_nat (length (byte :: chunk)))%Z
                    (log_to w1 [Log INFO (Download_progress
                       (downloaded + Z.of_nat (length (byte :: chunk))) total_size)])
                    (content ++ byte :: chunk)) as (progress & Hprogress & Hrun).
        { unfold temp_files, w1. simpl. apply lookup_insert_eq. }
        exists (Log INFO (Download_progress
                  (downloaded + Z.of_nat (length (byte :: chunk))) total_size) :: progress).
        split; [by constructor |].
        eapply bind_run; [exact Hwrite |]. eapply bind_run; [reflexivity |].
        refine (eq_trans Hrun _). unfold temp_files, backups, installation, w1. simpl.
        by rewrite insert_insert_eq, <- !app_assoc.
      * destruct (IH (downloaded + Z.of_nat (length (byte :: chunk)))%Z w1
                    (content ++ byte :: chunk)) as (progress & Hprogress & Hrun).
        { unfold temp_files, w1. simpl. apply lookup_insert_eq. }
        exists progress. split; [done |].
        eapply bind_run; [exact Hwrite |]. eapply bind_run; [reflexivity |].
        refine (eq_trans Hrun _). unfold temp_files, backups, installation, w1. simpl.
        by rewrite insert_insert_eq, <- !app_assoc.
Qed.

(** Verification compares the digest of the file with the expected value;
    an expected value without [lower] is logged and counts as a mismatch. *)
Lemma verify_checksum_run file_path content expected w :
  lookup_file (files w) file_path = Some content →
  ∃ events,
    Forall download_event events
    ∧ _verify_checksum file_path expected w
      = (Return (digest_matches content expected), log_to w events).
Proof.
  intros Hfile.
  assert (read_file file_path w = (Return content, w)) as Hread.
  { unfold read_file, bind, get_files. by rewrite Hfile. }
  assert (w = log_to w []) as Hw.
  { unfold log_to. rewrite app_nil_r. by destruct w. }
  unfold _verify_checksum. destruct expected as [| | |s| |];
    try (exists [Log ERROR (Error_verifying_checksum AttributeError)];
         split; [by repeat constructor |];
         eapply try_except_handles;
           [eapply bind_run; [exact Hread |]; cbv zeta; by eapply bind_raises | reflexivity]).
  exists []. split; [constructor |]. rewrite <- Hw.
  eapply try_except_returns. eapply bind_run; [exact Hread |]. reflexivity.
Qed.

(** A download whose body arrives completely: the file is written, then
    either verification is asked for and fails, and the file is unlinked, or
    the file is handed on. *)
Lemma download_update_body E d version total_size chunks w :
  assoc "version" d = Some version →
  download_reply E = Download_body total_size chunks None →
  ∃ events,
    Forall download_event events
    ∧ _download_update E (JDict d) w =
        if truthy (default JNull (assoc "checksum" d))
           && negb (digest_matches (concat chunks) (default JNull (assoc "checksum" d)))
        then
          (Return None,
           mkWorld
             (mkFs (delete (package_file version) (temp_files w)) (backups w) (installation w))
             (trace w ++ events ++ [Log ERROR Checksum_verification_failed]))
        else
          (Return (Some (TEMP_DIR // package_file version)),
           mkWorld
             (mkFs (<[package_file version := concat chunks]> (temp_files w)) (backups w)
                (installation w))
             (trace w ++ events ++ [Log INFO Download_completed_and_verified])).
Proof.
  intros Hversion Hreply.
  set (expected := default JNull (assoc "checksum" d)).
  set (w1 := log_to w [Log INFO Downloading_update]).
  set (w2 := mkWorld (mkFs (<[package_file version := []]> (temp_files w)) (backups w)
                        (installation w)) (trace w1)).
  destruct (iter_content_run (package_file version) total_size chunks 0 w2 [])
    as (progress & Hprogress & Hstream); [apply lookup_insert_eq |].
  set (w3 := mkWorld (mkFs (<[package_file version := concat chunks]> (temp_files w))
                        (backups w) (installation w)) (trace w1 ++ progress)).
  assert (iter_content (package_file version) total_size chunks 0 w2 = (Return tt, w3))
    as Hstream'.
  { rewrite Hstream. unfold w3, w2, temp_files, backups, installation. simpl.
    by rewrite insert_insert_eq. }
  clear Hstream. rename Hstream' into Hstream.
  destruct (verify_checksum_run (TEMP_DIR // package_file version) (concat chunks) expected w3)
    as (checked & Hchecked & Hverify); [apply lookup_insert_eq |].
  unfold _download_update.
  destruct (truthy expected) eqn:Htruthy; simpl andb.
  - destruct (digest_matches (concat chunks) expected) eqn:Hmatch; simpl negb; cbv iota.
    + exists (Log INFO Downloading_update :: progress ++ checked).
      split; [constructor; [done | by apply Forall_app] |].
      eapply try_except_returns.
      eapply bind_run; [reflexivity |]. eapply bind_run; [reflexivity |].
      eapply bind_run; [simpl; rewrite Hversion; reflexivity |]. cbv zeta. rewrite Hreply.
      eapply bind_run; [reflexivity |]. eapply bind_run; [exact Hstream |].
      eapply bind_run; [reflexivity |]. fold expected. rewrite Htruthy. simpl andb. cbv iota.
      eapply bind_run; [exact Hverify |]. simpl negb. cbv iota.
      eapply bind_run; [reflexivity |]. unfold ret, log_to, w3, w1, log_to. simpl.
      by rewrite <- !app_assoc.
    + exists (Log INFO Downloading_update :: progress ++ checked).
      split; [constructor; [done | by apply Forall_app] |].
      eapply try_except_returns.
      eapply bind_run; [reflexivity |]. eapply bind_run; [reflexivity |].
      eapply bind_run; [simpl; rewrite Hversion; reflexivity |]. cbv zeta. rewrite Hreply.
      eapply bind_run; [reflexivity |]. eapply bind_run; [exact Hstream |].
      eapply bind_run; [reflexivity |]. fold expected. rewrite Htruthy. simpl andb. cbv iota.
      eapply bind_run; [exact Hverify |]. simpl negb. cbv iota.
      eapply bind_run; [reflexivity |].
      eapply bind_run.
      { unfold unlink, bind, get_files, lookup_file. simpl. rewrite lookup_insert_eq.
        reflexivity. }
      unfold ret, remove_file, log_to, w3, w1, log_to. simpl.
      by rewrite delete_insert_eq, <- !app_assoc.
  - exists (Log INFO Downloading_update :: progress).
    split; [by constructor |].
    eapply try_except_returns.
    eapply bind_run; [reflexivity |]. eapply bind_run; [reflexivity |].
    eapply bind_run; [simpl; rewrite Hversion; reflexivity |]. cbv zeta. rewrite Hreply.
    eapply bind_run; [reflexivity |]. eapply bind_run; [exact Hstream |].
    eapply bind_run; [reflexivity |]. fold expected. rewrite Htruthy. simpl andb. cbv iota.
    eapply bind_run; [reflexivity |]. simpl negb. cbv iota.
    eapply bind_run; [reflexivity |]. unfold ret, log_to, w3, w1, log_to. simpl.
    by rewrite <- !app_assoc.
Qed.

End Download.

(** ** Checksum mismatch *)

Section Checksum.

Context {libs : Libraries}.
Variable VERSION : string.

Lemma download_events_no_backup_no_apply events :
  Forall download_event events → ¬ backup_attempted events ∧ ¬ apply_attempted events.
Proof.
  intros Hev. rewrite Forall_forall in Hev.
  split; [intros [archive H] | intros H]; apply Hev in H; exact H.
Qed.

(** A mismatch with a checksum that is provided: the update stops after the
    download stage, with the scratch file unlinked. *)
Lemma checksum_mismatch_run E d w version expected total_size chunks :
  assoc "version" d = Some version →
  assoc "checksum" d = Some expected →
  truthy expected = true →
  download_reply E = Download_body total_size chunks None →
  digest_matches (concat chunks) expected = false →
  ∃ w', _perform_update_with_info VERSION E (JDict d) w = (Return false, w')
    ∧ Log ERROR Checksum_verification_failed ∈ events_since w w'
    ∧ temp_files w' = delete (package_file version) (temp_files w)
    ∧ temp_files w' !! package_file version = None
    ∧ backups w' = backups w
    ∧ installation w' = installation w
    ∧ ¬ backup_attempted (events_since w w')
    ∧ ¬ apply_attempted (events_since w w').
Proof.
  intros Hversion Hchecksum Htruthy Hreply Hmismatch.
  destruct (perform_update_stages VERSION E (JDict d) w) as (downloaded & w1 & Hd & Hrest).
  destruct (download_update_body E d version total_size chunks
              (log_to w [Log INFO Starting_update_process]) Hversion Hreply)
    as (events & Hevents & Hrun).
  rewrite Hchecksum in Hrun. simpl in Hrun. rewrite Htruthy, Hmismatch in Hrun.
  simpl in Hrun. rewrite Hrun in Hd. injection Hd as <- <-.
  eexists. split; [exact Hrest |].
  unfold temp_files, backups, installation, log_to, events_since. simpl.
  rewrite <- app_assoc, drop_app_length. simpl.
  split; [set_solver |]. split; [done |]. split; [apply lookup_delete_eq |].
  split; [done |]. split; [done |].
  assert (Forall download_event (events ++ [Log ERROR Checksum_verification_failed]))
    as Hall by (apply Forall_app; split; [done | by repeat constructor]).
  apply download_events_no_backup_no_apply in Hall as [Hbackup Happly].
  split.
  - intros [archive [Heq|Hin]%elem_of_cons]; [done |]. apply Hbackup. by exists archive.
  - intros [Heq|Hin]%elem_of_cons; [done |]. by apply Happly.
Qed.

(** C2, amended: when the manifest carries a checksum value that is true
    in Python's sense (not absent, [None], empty or zero) and the SHA-256
    digest of the completely received download does not match it, compared in
    lower case, the update returns [False] after logging the checksum error,
    the scratch file of the download is unlinked (the rest of the scratch
    directory, the backups and the installation stay as they were), and
    neither the backup nor the installation stage is started. *)
Theorem checksum_mismatch_discards_download E d w version expected total_size chunks :
  assoc "version" d = Some version →
  assoc "checksum" d = Some expected →
  truthy expected = true →
  download_reply E = Download_body total_size chunks None →
  digest_matches (concat chunks) expected = false →
  ∃ w', _perform_update_with_info VERSION E (JDict d) w = (Return false, w')
    ∧ Log ERROR Checksum_verification_failed ∈ events_since w w'
    ∧ temp_files w' = delete (package_file version) (temp_files w)
    ∧ temp_files w' !! package_file version = None
    ∧ backups w' = backups w
    ∧ installation w' = installation w
    ∧ ¬ backup_attempted (events_since w w')
    ∧ ¬ apply_attempted (events_since w w').
Proof. apply checksum_mismatch_run. Qed.

End Checksum.

Lemma checksum_mismatch_discards_download_witness :
  let E := Example.cycle Example.manifest_wrong_checksum Example.package in
  let version := JStr "1.0.17" in
  ∃ w', _perform_update_with_info VERSION_in_source E Example.manifest_wrong_checksum
          Example.installed = (Return false, w')
    ∧ Log ERROR Checksum_verification_failed ∈ events_since Example.installed w'
    ∧ temp_files w' = delete (package_file version) (temp_files Example.installed)
    ∧ temp_files w' !! package_file version = None
    ∧ backups w' = backups Example.installed
    ∧ installation w' = installation Example.installed
    ∧ ¬ backup_attempted (events_since Example.installed w')
    ∧ ¬ apply_attempted (events_since Example.installed w').
Proof.
  exact (checksum_mismatch_discards_download VERSION_in_source
           (Example.cycle Example.manifest_wrong_checksum Example.package)
           [("version", JStr "1.0.17"); ("checksum", JStr "0badc0de")]
           Example.installed (JStr "1.0.17") (JStr "0badc0de") _ [Example.package]
           eq_refl eq_refl eq_refl eq_refl eq_refl).
Defined.

(** C2 as stated fails: an empty checksum string matches no digest, yet
    verification is skipped for it and the package is installed. *)
Lemma mismatch_rejected_fails :
  ¬ mismatch_rejected VERSION_in_source
      (Example.cycle Example.manifest_empty_checksum Example.package)
      [("version", JStr "1.0.17"); ("checksum", JStr "")]
      Example.installed.
Proof.
  intros Hclaim.
  destruct (Hclaim (JStr "1.0.17") (JStr "") _ [Example.package]
              eq_refl eq_refl eq_refl eq_refl) as [Hfalse _].
  vm_compute in Hfalse. discriminate Hfalse.
Qed.

(** ** Manifests without version or checksum *)

Section Manifest_fields.

Context {libs : Libraries}.
Variable VERSION : string.


End Manifest_fields.



(** ** The downloaded package file after the update *)

Section Package_file.

Context {libs : Libraries}.
Variable VERSION : string.

(** The loop of [_cleanup_temp_files] unlinks every listed file. *)
Lemma unlink_loop (l : list (string * bytes)) w :
  NoDup l.*1 →
  (∀ item, item ∈ l → is_Some (temp_files w !! item.1)) →
  for_each l (λ item, unlink (TEMP_DIR // item.1)) w
  = (Return tt,
     mkWorld
       (mkFs (foldl (λ m item, delete item.1 m) (temp_files w) l) (backups w) (installation w))
       (trace w)).
Proof.
  revert w. induction l as [|item l IH]; intros w Hnodup Hpresent.
  - simpl. unfold ret. by destruct w as [[]].
  - simpl in Hnodup. apply NoDup_cons in Hnodup as [Hfresh Hnodup].
    destruct (Hpresent item) as [data Hdata]; [set_solver |].
    cbn [for_each]. eapply bind_run.
    { unfold unlink, bind, get_files, lookup_file. simpl.
      unfold temp_files in Hdata. rewrite Hdata. reflexivity. }
    rewrite IH; [done | done |].
    intros item' Hitem'. unfold temp_files, remove_file. simpl.
    rewrite lookup_delete_ne; [apply Hpresent; set_solver |].
    intros Heq. apply Hfresh. rewrite Heq. by apply list_elem_of_fmap_2.
Qed.

(** [_cleanup_temp_files] empties the scratch directory. *)
Lemma cleanup_temp_files_run w :
  _cleanup_temp_files w =
    (Return tt, mkWorld (mkFs ∅ (backups w) (installation w)) (trace w)).
Proof.
  unfold _cleanup_temp_files. eapply try_except_returns.
  eapply bind_run; [reflexivity |].
  rewrite unlink_loop.
  - do 3 f_equal. apply map_eq. intros k.
    rewrite lookup_foldl_delete, lookup_empty. destruct (decide _) as [|Hnot]; [done |].
    destruct (temp_files w !! k) as [data|] eqn:Hk; [| done].
    exfalso. apply Hnot. apply (list_elem_of_fmap_2 fst _ (k, data)).
    by apply elem_of_map_to_list.
  - apply NoDup_fst_map_to_list.
  - intros [k data] Hin. exists data. by apply elem_of_map_to_list.
Qed.

Lemma events_since_trans P Q w w1 w2 :
  emits P w w1 → emits Q w1 w2 → events_since w w2 = events_since w w1 ++ events_since w1 w2.
Proof.
  intros (new1 & H1 & _) (new2 & H2 & _). unfold events_since.
  rewrite H2, H1, (drop_app_length (trace w ++ new1)), <- app_assoc.
  by rewrite !drop_app_length.
Qed.

Lemma rollback_extends_trace E : respects (emits (λ _, True)) (_rollback VERSION E).
Proof. unfold _rollback, _extract_zip_to_app_dir. cbv zeta. respects_auto. Qed.

Lemma apply_update_extends_trace E update_file :
  respects (emits (λ _, True)) (_apply_update E update_file).
Proof. unfold _apply_update, _extract_zip_to_app_dir. respects_auto. Qed.

(** C4, amended: the downloaded package file is deleted after a successful
    update (the cleanup empties the scratch directory) and after a failed
    checksum verification (the file is unlinked).  After a failed
    installation no cleanup runs: the update logs the failed apply, rolls
    back and returns [False], and the downloaded file is still in the scratch
    directory with the bytes received. *)
Theorem package_file_after_update E d w version :
  assoc "version" d = Some version →
  (∀ w', _perform_update_with_info VERSION E (JDict d) w = (Return true, w') →
         temp_files w' = ∅)
  ∧ (∀ expected total_size chunks,
       assoc "checksum" d = Some expected →
       truthy expected = true →
       download_reply E = Download_body total_size chunks None →
       digest_matches (concat chunks) expected = false →
       ∃ w', _perform_update_with_info VERSION E (JDict d) w = (Return false, w')
         ∧ temp_files w' !! package_file version = None)
  ∧ (∀ total_size chunks w',
       download_reply E = Download_body total_size chunks None →
       truthy (default JNull (assoc "checksum" d))
         && negb (digest_matches (concat chunks) (default JNull (assoc "checksum" d))) = false →
       make_archive_fault E = None →
       _perform_update_with_info VERSION E (JDict d) w = (Return false, w') →
       Log ERROR Failed_to_apply_update_attempting_rollback ∈ events_since w w'
       ∧ temp_files w' !! package_file version = Some (concat chunks)).
Proof.
  intros Hversion. split; [| split].
  - intros w' Hrun.
    destruct (perform_update_stages VERSION E (JDict d) w) as (downloaded & w1 & Hd & Hrest).
    destruct downloaded as [update_file|]; [| congruence].
    destruct Hrest as (backed_up & w2 & Hb & Hrest).
    destruct backed_up; [| congruence].
    destruct Hrest as (applied & w3 & Ha & Hrest).
    destruct applied; [| destruct Hrest as (? & ? & _ & ?); congruence].
    destruct Hrest as (w4 & w5 & Ht & Ho & Hper).
    rewrite Hper in Hrun. injection Hrun as <-.
    rewrite cleanup_temp_files_run in Ht. injection Ht as <-.
    pose proof (cleanup_old_backups_temp_files
                  (mkWorld (mkFs ∅ (backups w3) (installation w3)) (trace w3))) as Hsame.
    rewrite Ho in Hsame. exact Hsame.
  - intros expected total_size chunks Hchecksum Htruthy Hreply Hmismatch.
    destruct (checksum_mismatch_run VERSION E d w version expected total_size chunks)
      as (w' & Hrun & _ & _ & Hgone & _); try done.
    by exists w'.
  - intros total_size chunks w' Hreply Haccepted Hfault Hrun.
    set (w0 := log_to w [Log INFO Starting_update_process]).
    destruct (perform_update_stages VERSION E (JDict d) w) as (downloaded & w1 & Hd & Hrest).
    fold w0 in Hd.
    destruct (download_update_body E d version total_size chunks w0 Hversion Hreply)
      as (events & Hevents & Hdownload).
    rewrite Haccepted in Hdownload.
    match type of Hdownload with _ = (_, ?W) => set (w1' := W) in Hdownload end.
    rewrite Hdownload in Hd. injection Hd as <- <-.
    destruct Hrest as (backed_up & w2 & Hb & Hrest).
    pose proof (create_backup_ok VERSION E w1' Hfault) as Hbackup.
    match type of Hbackup with _ = (_, ?W) => set (w2' := W) in Hbackup end.
    rewrite Hbackup in Hb. injection Hb as <- <-.
    destruct Hrest as (applied & w3 & Ha & Hrest).
    destruct applied; [destruct Hrest as (? & ? & _ & _ & ?); congruence |].
    destruct Hrest as (rolled_back & w4 & Hr & Hper).
    rewrite Hper in Hrun. injection Hrun as <-.
    set (w3' := log_to w3 [Log ERROR Failed_to_apply_update_attempting_rollback]) in *.
    assert (emits (λ _, True) w w2') as Hw2.
    { unfold w2', w1', w0, log_to. simpl. rewrite <- !app_assoc.
      eexists. split; [reflexivity |]. apply Forall_forall. done. }
    assert (emits (λ _, True) w2' w3) as Hw3
      by exact (respects_run _ _ _ _ _ (apply_update_extends_trace E _) Ha).
    assert (emits (λ _, True) w3' w4) as Hw4
      by exact (respects_run _ _ _ _ _ (rollback_extends_trace E) Hr).
    assert (emits (λ _, True) w w3) as Hw3' by (etrans; done).
    split.
    + rewrite (events_since_trans (λ _, True) (λ _, True) w w3' w4); [| | exact Hw4].
      * unfold w3'. rewrite (events_since_log_to _ _ _ _ Hw3'). set_solver.
      * etrans; [exact Hw3' |]. apply emits_log_to. by repeat constructor.
    + pose proof (respects_run _ _ _ _ _ (rollback_temp_files VERSION E) Hr) as Hsame4.
      pose proof (respects_run _ _ _ _ _ (apply_update_temp_files E _) Ha) as Hsame3.
      unfold same in Hsame3, Hsame4. rewrite Hsame4.
      change (temp_files w3') with (temp_files w3). rewrite Hsame3.
      apply lookup_insert_eq.
Qed.

End Package_file.

Lemma package_file_after_update_witness :
  let E := Example.cycle_extraction_fails Example.manifest Example.package in
  let w' := (_perform_update_with_info VERSION_in_source E Example.manifest
               Example.installed).2 in
  _perform_update_with_info VERSION_in_source E Example.manifest Example.installed
    = (Return false, w')
  ∧ Log ERROR Failed_to_apply_update_attempting_rollback ∈ events_since Example.installed w'
  ∧ temp_files w' !! package_file (JStr "1.0.17") = Some (concat [Example.package]).
Proof.
  cbv zeta.
  assert (_perform_update_with_info VERSION_in_source
            (Example.cycle_extraction_fails Example.manifest Example.package)
            Example.manifest Example.installed
          = (Return false,
             (_perform_update_with_info VERSION_in_source
                (Example.cycle_extraction_fails Example.manifest Example.package)
                Example.manifest Example.installed).2)) as Hrun
    by (vm_compute; reflexivity).
  split; [exact Hrun |].
  exact (proj2 (proj2 (package_file_after_update VERSION_in_source
                         (Example.cycle_extraction_fails Example.manifest Example.package)
                         [("version", JStr "1.0.17");
                          ("checksum", JStr (Reference.hexdigest Example.package))]
                         Example.installed (JStr "1.0.17") eq_refl))
           _ [Example.package] _ eq_refl eq_refl eq_refl Hrun).
Defined.

(** C4 as stated fails: after an installation that failed the downloaded
    package is still in the scratch directory. *)
Lemma package_always_deleted_fails :
  ¬ package_always_deleted VERSION_in_source
      (Example.cycle_extraction_fails Example.manifest Example.package)
      [("version", JStr "1.0.17");
       ("checksum", JStr (Reference.hexdigest Example.package))]
      Example.installed.
Proof.
  intros Hclaim. specialize (Hclaim (JStr "1.0.17") eq_refl).
  vm_compute in Hclaim. discriminate Hclaim.
Qed.

(** ** Rollback *)

Section Rollback.

Context {libs : Libraries}.
Variable VERSION : string.

Lemma download_update_not_rollback E update_info :
  respects (emits not_rollback) (_download_update E update_info).
Proof. unfold _download_update, _verify_checksum. cbv zeta. respects_auto. Qed.

Lemma create_backup_not_rollback E : respects (emits not_rollback) (_create_backup VERSION E).
Proof. unfold _create_backup. cbv zeta. respects_auto. Qed.

Lemma apply_update_not_rollback E update_file :
  respects (emits not_rollback) (_apply_update E update_file).
Proof. unfold _apply_update, _extract_zip_to_app_dir. respects_auto. Qed.

Lemma cleanup_temp_files_not_rollback : respects (emits not_rollback) _cleanup_temp_files.
Proof. unfold _cleanup_temp_files. respects_auto. Qed.

Lemma cleanup_old_backups_not_rollback : respects (emits not_rollback) _cleanup_old_backups.
Proof. unfold _cleanup_old_backups. cbv zeta. respects_auto. Qed.

(** A backup that reports success had no fault and logged its success. *)
Lemma create_backup_true E w w' :
  _create_backup VERSION E w = (Return true, w') →
  Log INFO Backup_created_successfully ∈ events_since w w'.
Proof.
  intros Hrun. destruct (make_archive_fault E) as [fault|] eqn:Hfault.
  - exfalso. revert Hrun.
    unfold _create_backup, make_archive, write_file, try_except, bind, logger_info,
      logger_error, emit, get_files, put_files, ret, raise.
    rewrite Hfault. simpl. by destruct (archive_leftover fault).
  - rewrite (create_backup_ok VERSION E w Hfault) in Hrun. injection Hrun as <-.
    unfold events_since. simpl. rewrite drop_app_length. set_solver.
Qed.

(** [_rollback] announces itself first. *)
Lemma rollback_announced E w :
  ∃ rest, trace (_rollback VERSION E w).2 = trace w ++ Log INFO Performing_rollback :: rest.
Proof.
  unfold _rollback. unfold bind at 1. unfold logger_info at 1, emit at 1. cbv zeta.
  match goal with
  | |- context [bind ?m ?k ?w0] =>
      assert (respects (emits (λ _, True)) (bind m k)) as Hrest
        by (unfold _extract_zip_to_app_dir; respects_auto);
      destruct (Hrest w0) as (rest & Htrace & _)
  end.
  exists rest. simpl in Htrace. rewrite Htrace. by rewrite <- app_assoc.
Qed.

Lemma not_rollback_events events :
  Forall not_rollback events →
  ¬ rollback_attempted events
  ∧ Log ERROR Failed_to_apply_update_attempting_rollback ∉ events.
Proof.
  intros Hev. rewrite Forall_forall in Hev. split; intros H; apply Hev in H; exact H.
Qed.

(** The first two parts of C1 hold: the update attempts a rollback exactly
    when it has seen the apply stage fail, which is after the backup was
    created, and it then returns [False]. *)
Lemma rollback_exactly_after_failed_apply E update_info w :
  let r := _perform_update_with_info VERSION E update_info w in
  (rollback_attempted (events_since w r.2)
   ↔ Log ERROR Failed_to_apply_update_attempting_rollback ∈ events_since w r.2)
  ∧ (rollback_attempted (events_since w r.2) →
     Log INFO Backup_created_successfully ∈ events_since w r.2
     ∧ apply_attempted (events_since w r.2)
     ∧ r.1 = Return false).
Proof.
  cbv zeta.
  set (w0 := log_to w [Log INFO Starting_update_process]).
  assert (emits not_rollback w w0) as Hw0 by emitted.
  destruct (perform_update_stages VERSION E update_info w) as (downloaded & w1 & Hd & Hrest).
  fold w0 in Hd.
  pose proof (respects_run _ _ _ _ _ (download_update_not_rollback E update_info) Hd) as Hw1.
  assert (∀ w', emits not_rollback w w' →
            (rollback_attempted (events_since w w')
             ↔ Log ERROR Failed_to_apply_update_attempting_rollback ∈ events_since w w')
            ∧ (rollback_attempted (events_since w w') →
               Log INFO Backup_created_successfully ∈ events_since w w'
               ∧ apply_attempted (events_since w w')
               ∧ (Return false : outcome bool) = Return false)) as Hquiet.
  { intros w' Hw'. apply events_since_emits, not_rollback_events in Hw' as [Hno1 Hno2].
    split; [split |]; intros; done. }
  destruct downloaded as [update_file|].
  2: { rewrite Hrest. simpl. apply Hquiet. by etrans. }
  destruct Hrest as (backed_up & w2 & Hb & Hrest).
  pose proof (respects_run _ _ _ _ _ (create_backup_not_rollback E) Hb) as Hw2.
  destruct backed_up.
  2: { rewrite Hrest. simpl. apply Hquiet.
       etrans; [exact Hw0 |]. etrans; [exact Hw1 |]. etrans; [exact Hw2 |].
       apply emits_log_to. by repeat constructor. }
  destruct Hrest as (applied & w3 & Ha & Hrest).
  pose proof (respects_run _ _ _ _ _ (apply_update_not_rollback E update_file) Ha) as Hw3.
  destruct applied.
  - destruct Hrest as (w4 & w5 & Ht & Ho & Hper). rewrite Hper. simpl.
    pose proof (respects_run _ _ _ _ _ cleanup_temp_files_not_rollback Ht) as Hw4.
    pose proof (respects_run _ _ _ _ _ cleanup_old_backups_not_rollback Ho) as Hw5.
    assert (emits not_rollback w
              (log_to w5 [Log INFO Update_completed_successfully])) as Hall.
    { etrans; [exact Hw0 |]. etrans; [exact Hw1 |]. etrans; [exact Hw2 |].
      etrans; [exact Hw3 |]. etrans; [exact Hw4 |]. etrans; [exact Hw5 |].
      apply emits_log_to. by repeat constructor. }
    apply events_since_emits, not_rollback_events in Hall as [Hno1 Hno2].
    split; [split |]; intros; done.
  - destruct Hrest as (rolled_back & w4 & Hr & Hper). rewrite Hper. simpl.
    set (w3' := log_to w3 [Log ERROR Failed_to_apply_update_attempting_rollback]) in *.
    assert (emits not_rollback w w1) as Hto1 by (etrans; done).
    assert (emits not_rollback w w2) as Hto2 by (etrans; done).
    assert (emits not_rollback w w3) as Hto3 by (etrans; done).
    assert (emits (λ _, True) w w3') as Hto3'.
    { destruct Hto3 as (new & Htrace & _). exists (new ++ [Log ERROR
        Failed_to_apply_update_attempting_rollback]).
      split; [unfold w3', log_to; simpl; by rewrite Htrace, app_assoc |].
      apply Forall_forall. done. }
    destruct (rollback_announced E w3') as (rest & Htrace). rewrite Hr in Htrace.
    simpl in Htrace.
    assert (emits (λ _, True) w3' w4) as Hto4.
    { exists (Log INFO Performing_rollback :: rest). split; [done |].
      apply Forall_forall. done. }
    assert (events_since w w4
            = events_since w w3 ++ [Log ERROR Failed_to_apply_update_attempting_rollback]
              ++ Log INFO Performing_rollback :: rest) as Hevents.
    { rewrite (events_since_trans (λ _, True) (λ _, True) w w3' w4 Hto3' Hto4).
      unfold w3' at 1. rewrite (events_since_log_to _ _ _ _ Hto3), <- app_assoc.
      f_equal. f_equal. unfold events_since. by rewrite Htrace, drop_app_length. }
    assert (Log INFO Backup_created_successfully ∈ events_since w w3) as Hbackup.
    { rewrite (events_since_trans _ _ w w2 w3 Hto2 Hw3).
      rewrite (events_since_trans _ _ w w1 w2 Hto1 Hw2).
      pose proof (create_backup_true E w1 w2 Hb). set_solver. }
    assert (apply_attempted (events_since w w3)) as Happly.
    { unfold apply_attempted. rewrite (events_since_trans _ _ w w2 w3 Hto2 Hw3).
      apply elem_of_app. right.
      assert (∃ rest', trace w3 = trace w2 ++ Log INFO Applying_update :: rest')
        as (rest' & Htrace3).
      { revert Ha. unfold _apply_update. unfold bind at 1.
        unfold logger_info at 1, emit at 1.
        match goal with
        | |- context [bind ?m ?k ?wa] =>
            assert (respects (emits (λ _, True)) (bind m k)) as Hk
              by (unfold _extract_zip_to_app_dir; respects_auto);
            destruct (Hk wa) as (rest' & Htr & _)
        end.
        intros Ha. rewrite Ha in Htr. simpl in Htr.
        exists rest'. by rewrite Htr, <- app_assoc. }
      unfold events_since. rewrite Htrace3, drop_app_length. set_solver. }
    rewrite Hevents. unfold rollback_attempted, apply_attempted in *.
    split; [split; intros _; set_solver |]. intros _. set_solver.
Qed.

End Rollback.

(** [_create_backup] writes [nametag_v1.0.16.zip], but [_rollback] looks for
    the path [with_suffix] makes of [nametag_v1.0.16]: [pathlib] takes [.16]
    for the suffix of that name and replaces it. *)
Lemma rollback_looks_elsewhere :
  backup_archive_name VERSION_in_source = "nametag_v1.0.16.zip"
  ∧ with_suffix (get_backup_path VERSION_in_source) ".zip" = BACKUP_DIR // "nametag_v1.0.zip".
Proof. split; reflexivity. Qed.


(** The same defect in a whole cycle: the backup of 1.0.16 is created,
    extraction of the package fails, and the rollback that follows reports
    that there is no backup although the archive is there. *)
Lemma fresh_backup_not_found :
  let E := Example.cycle_extraction_fails Example.manifest Example.package in
  let w' := (_check_and_update VERSION_in_source None E Example.installed).2 in
  Log INFO Backup_created_successfully ∈ trace w'
  ∧ is_Some (backups w' !! backup_archive_name VERSION_in_source)
  ∧ Log ERROR No_backup_found_for_rollback ∈ trace w'.
Proof.
  cbv zeta. split; [| split].
  - vm_compute. repeat first [apply list_elem_of_here | apply list_elem_of_further].
  - vm_compute. by eexists.
  - vm_compute. repeat first [apply list_elem_of_here | apply list_elem_of_further].
Qed.

(** * Further properties of the update engine *)

(** ** Extraction *)

Lemma extract_over_cons member members (m : gmap string bytes) :
  extract_over (member :: members) m = extract_over members (<[member.1 := member.2]> m).
Proof. reflexivity. Qed.

Lemma extract_over_lookup_notin members (m : gmap string bytes) k :
  k ∉ members.*1 → extract_over members m !! k = m !! k.
Proof.
  revert m. induction members as [|member members IH]; intros m Hnotin; [done |].
  rewrite fmap_cons in Hnotin. apply not_elem_of_cons in Hnotin as [Hne Hnotin].
  rewrite extract_over_cons, IH by done. by apply lookup_insert_ne.
Qed.

Lemma extract_over_lookup_in members (m : gmap string bytes) k data :
  NoDup members.*1 → (k, data) ∈ members → extract_over members m !! k = Some data.
Proof.
  revert m. induction members as [|member members IH]; intros m Hnodup Hin.
  - by apply elem_of_nil in Hin.
  - rewrite fmap_cons in Hnodup. apply NoDup_cons in Hnodup as [Hfresh Hnodup].
    rewrite extract_over_cons.
    apply elem_of_cons in Hin as [<-|Hin].
    + rewrite extract_over_lookup_notin by done. apply lookup_insert_eq.
    + by apply IH.
Qed.

Section Extraction.

Context {libs : Libraries}.

(** [extractall] when the fault, if any, lies outside the members still to
    extract. *)
Lemma extractall_completes members i fault w :
  (∀ ft, fault = Some ft → extract_at ft < i ∨ i + length members ≤ extract_at ft) →
  extractall members i fault w =
    (Return tt,
     mkWorld (mkFs (temp_files w) (backups w) (extract_over members (installation w)))
       (trace w)).
Proof.
  revert i w. induction members as [|member members IH]; intros i w Hfault.
  - simpl. unfold ret. by destruct w as [[]].
  - cbn [extractall].
    assert (extractall members (S i) fault
              (mkWorld (mkFs (temp_files w) (backups w)
                          (<[member.1 := member.2]> (installation w))) (trace w))
            = (Return tt,
               mkWorld (mkFs (temp_files w) (backups w)
                          (extract_over (member :: members) (installation w))) (trace w)))
      as Hrest.
    { rewrite IH; [done |]. intros ft Hft. destruct (Hfault ft Hft); simpl in *; lia. }
    destruct fault as [ft|].
    + destruct (extract_at ft =? i)%nat eqn:Hat.
      * apply Nat.eqb_eq in Hat. destruct (Hfault ft eq_refl); simpl in *; lia.
      * eapply bind_run; [reflexivity | exact Hrest].
    + eapply bind_run; [reflexivity | exact Hrest].
Qed.


Lemma extract_zip_completes p fault w content members :
  lookup_file (files w) p = Some content →
  zip_members content = Some members →
  (∀ ft, fault = Some ft → length members ≤ extract_at ft) →
  _extract_zip_to_app_dir p fault w =
    (Return true,
     mkWorld (mkFs (temp_files w) (backups w) (extract_over members (installation w)))
       (trace w)).
Proof.
  intros Hfile Hzip Hfault. unfold _extract_zip_to_app_dir.
  eapply try_except_returns. eapply bind_run.
  { unfold read_file, bind, get_files. rewrite Hfile. reflexivity. }
  rewrite Hzip. eapply bind_run; [| reflexivity].
  apply extractall_completes. intros ft Hft. right. simpl. by apply Hfault.
Qed.


Lemma extract_zip_unreadable p fault w :
  lookup_file (files w) p = None
  ∨ (∃ content, lookup_file (files w) p = Some content ∧ zip_members content = None) →
  ∃ e, _extract_zip_to_app_dir p fault w
       = (Return false, log_to w [Log ERROR (Failed_to_extract p e)]).
Proof.
  intros [Hnone | (content & Hfile & Hzip)]; unfold _extract_zip_to_app_dir.
  - exists FileNotFoundError. eapply try_except_handles.
    { eapply bind_raises. unfold read_file, bind, get_files. rewrite Hnone. reflexivity. }
    reflexivity.
  - exists BadZipFile. eapply try_except_handles.
    { eapply bind_run.
      { unfold read_file, bind, get_files. rewrite Hfile. reflexivity. }
      rewrite Hzip. reflexivity. }
    reflexivity.
Qed.

(** X1: applying a readable package without a fault returns [True] and
    extracts every member over the installation directory: a file of the
    archive has the archive's content afterwards, a file that is not in the
    archive is left as it was (nothing is deleted), and the scratch and backup
    directories are untouched. *)
Theorem apply_update_overwrites E update_file w content members :
  lookup_file (files w) update_file = Some content →
  zip_members content = Some members →
  apply_fault E = None →
  ∃ w', _apply_update E update_file w = (Return true, w')
    ∧ installation w' = extract_over members (installation w)
    ∧ (∀ k, k ∉ members.*1 → installation w' !! k = installation w !! k)
    ∧ (NoDup members.*1 → ∀ k data, (k, data) ∈ members → installation w' !! k = Some data)
    ∧ temp_files w' = temp_files w
    ∧ backups w' = backups w
    ∧ events_since w w' = [Log INFO Applying_update; Log INFO Update_applied_successfully].
Proof.
  intros Hfile Hzip Hfault. eexists. split.
  - unfold _apply_update. eapply bind_run; [reflexivity |]. eapply bind_run.
    { apply (extract_zip_completes _ _ _ content members); [exact Hfile | exact Hzip |].
      rewrite Hfault. by intros ft. }
    eapply bind_run; reflexivity.
  - unfold installation at 1 2, temp_files at 1, backups at 1, events_since. simpl.
    split; [done |].
    split; [intros k Hk; by apply extract_over_lookup_notin |].
    split; [intros Hnodup k data Hin; by apply extract_over_lookup_in |].
    split; [done |]. split; [done |].
    by rewrite <- app_assoc, drop_app_length.
Qed.


(** X3: a package file that is missing or is not a zip archive makes
    [_apply_update] return [False] after logging the extraction error, and no
    file is changed. *)
Theorem apply_update_unreadable E update_file w :
  lookup_file (files w) update_file = None
  ∨ (∃ content, lookup_file (files w) update_file = Some content
                ∧ zip_members content = None) →
  ∃ e w', _apply_update E update_file w = (Return false, w')
    ∧ files w' = files w
    ∧ events_since w w' =
        [Log INFO Applying_update;
         Log ERROR (Failed_to_extract update_file e);
         Log ERROR Failed_to_apply_update].
Proof.
  intros Hbad.
  destruct (extract_zip_unreadable update_file (apply_fault E)
              (log_to w [Log INFO Applying_update])) as (e & Hrun).
  { destruct Hbad as [Hnone | (content & Hfile & Hzip)]; [by left |].
    right. by exists content. }
  exists e. eexists. split.
  - unfold _apply_update. eapply bind_run; [reflexivity |].
    eapply bind_run; [exact Hrun |]. eapply bind_run; reflexivity.
  - unfold events_since. simpl. split; [done |].
    by rewrite <- !app_assoc, drop_app_length.
Qed.

End Extraction.

Lemma apply_update_overwrites_witness :
  let E := Example.cycle Example.manifest Example.package in
  let members := [("program.py", Example.new_program)] in
  ∃ w', _apply_update E (TEMP_DIR // "update_1.0.17.zip") Sample.downloaded = (Return true, w')
    ∧ installation w' = extract_over members (installation Sample.downloaded)
    ∧ (∀ k, k ∉ members.*1 → installation w' !! k = installation Sample.downloaded !! k)
    ∧ (NoDup members.*1 → ∀ k data, (k, data) ∈ members → installation w' !! k = Some data)
    ∧ temp_files w' = temp_files Sample.downloaded
    ∧ backups w' = backups Sample.downloaded
    ∧ events_since Sample.downloaded w'
      = [Log INFO Applying_update; Log INFO Update_applied_successfully].
Proof.
  exact (apply_update_overwrites (Example.cycle Example.manifest Example.package)
           (TEMP_DIR // "update_1.0.17.zip") Sample.downloaded Example.package
           [("program.py", Example.new_program)] eq_refl eq_refl eq_refl).
Defined.


Lemma apply_update_unreadable_witness :
  ∃ e w', _apply_update (Example.cycle Example.manifest Example.package)
            (TEMP_DIR // "update_1.0.17.zip") Example.installed = (Return false, w')
    ∧ files w' = files Example.installed
    ∧ events_since Example.installed w' =
        [Log INFO Applying_update;
         Log ERROR (Failed_to_extract (TEMP_DIR // "update_1.0.17.zip") e);
         Log ERROR Failed_to_apply_update].
Proof.
  exact (apply_update_unreadable (Example.cycle Example.manifest Example.package)
           (TEMP_DIR // "update_1.0.17.zip") Example.installed (or_introl eq_refl)).
Defined.

(** ** Strings and [with_suffix] *)

Lemma string_length_app s t : String.length (s +:+ t) = String.length s + String.length t.
Proof. induction s as [|c s IH]; simpl; [done | by rewrite IH]. Qed.

Lemma substring_all s : substring 0 (String.length s) s = s.
Proof. induction s as [|c s IH]; simpl; [done | by rewrite IH]. Qed.

Lemma substring_app_r s t : substring (String.length s) (String.length t) (s +:+ t) = t.
Proof. induction s as [|c s IH]; simpl; [apply substring_all | exact IH]. Qed.

Lemma substring_app_l s t : substring 0 (String.length s) (s +:+ t) = s.
Proof.
  induction s as [|c s IH]; simpl; [by destruct t | by rewrite IH].
Qed.

Lemma string_app_inv_l s t1 t2 : s +:+ t1 = s +:+ t2 → t1 = t2.
Proof. induction s as [|c s IH]; simpl; [done |]. intros [= H]. by apply IH. Qed.

Lemma string_app_assoc s t u : (s +:+ t) +:+ u = s +:+ t +:+ u.
Proof.
  induction s as [|c s IH]; [done |].
  change (String c ((s +:+ t) +:+ u) = String c (s +:+ t +:+ u)). by f_equal.
Qed.

(** [rfind] steps over a string without the character, and finds the last
    occurrence. *)
Lemma rfind_from_absent c s i last : occurs c s = false → rfind_from c s i last = last.
Proof.
  revert i last. induction s as [|a s IH]; intros i last Habsent; simpl in *; [done |].
  apply orb_false_iff in Habsent as [-> Habsent]. by apply IH.
Qed.

Lemma rfind_from_app c s t i last :
  rfind_from c (s +:+ t) i last = rfind_from c t (i + String.length s) (rfind_from c s i last).
Proof.
  revert i last. induction s as [|a s IH]; intros i last; simpl.
  - by rewrite Nat.add_0_r.
  - rewrite IH. f_equal. lia.
Qed.

Lemma rfind_last c s t :
  occurs c t = false → rfind c (s +:+ String c t) = Some (String.length s).
Proof.
  intros Habsent. unfold rfind. rewrite rfind_from_app. simpl.
  rewrite Ascii.eqb_refl. by apply rfind_from_absent.
Qed.

(** The suffix of a name [s.t], where [t] is not empty and has no dot and
    [s] is not empty, is [.t], and [with_suffix] puts the new suffix in its
    place. *)
Lemma suffix_last_component d s t :
  s ≠ "" → t ≠ "" → occurs "." t = false →
  suffix (mkPath d (s +:+ String "." t)) = String "." t.
Proof.
  intros Hs Ht Habsent. unfold suffix. cbn [name]. rewrite (rfind_last _ _ _ Habsent).
  assert ((0 <? String.length s)%nat = true) as H1 by (by destruct s).
  assert ((String.length s <? String.length (s +:+ String "." t) - 1)%nat = true) as H2.
  { apply Nat.ltb_lt. rewrite string_length_app. destruct t; [done |].
    cbn [String.length]. lia. }
  rewrite H1, H2. cbn [andb].
  replace (String.length (s +:+ String "." t) - String.length s)
    with (String.length (String "." t)) by (rewrite string_length_app; lia).
  apply substring_app_r.
Qed.

Lemma with_suffix_last_component d s t new_suffix :
  s ≠ "" → t ≠ "" → occurs "." t = false →
  with_suffix (mkPath d (s +:+ String "." t)) new_suffix = mkPath d (s +:+ new_suffix).
Proof.
  intros Hs Ht Habsent. unfold with_suffix.
  rewrite (suffix_last_component d s t Hs Ht Habsent). cbn [name parent].
  replace (String.eqb (String "." t) "") with false by done.
  rewrite string_length_app.
  replace (String.length s + String.length (String "." t) - String.length (String "." t))
    with (String.length s) by lia.
  by rewrite substring_app_l.
Qed.

(** ** Rollback from the archive it looks for *)

Section Rollback_archive.

Context {libs : Libraries}.
Variable VERSION : string.

Lemma rollback_missing E w :
  lookup_file (files w) (with_suffix (get_backup_path VERSION) ".zip") = None →
  _rollback VERSION E w =
    (Return false,
     log_to (log_to w [Log INFO Performing_rollback]) [Log ERROR No_backup_found_for_rollback]).
Proof.
  intros Hnone. unfold _rollback. eapply bind_run; [reflexivity |]. cbv zeta.
  eapply bind_run.
  { unfold path_exists, bind, get_files, ret. simpl. rewrite Hnone. reflexivity. }
  rewrite bool_decide_eq_false_2 by (by intros [? ?]). simpl.
  eapply bind_run; reflexivity.
Qed.

(** X4: when the archive [_rollback] looks for exists and is readable, the
    rollback returns [True] and extracts it over the installation directory:
    the files of the archive get the archive's content, and every other file
    stays, also a file that the failed update had added. *)
Theorem rollback_extracts_archive E w content members :
  lookup_file (files w) (with_suffix (get_backup_path VERSION) ".zip") = Some content →
  zip_members content = Some members →
  rollback_fault E = None →
  ∃ w', _rollback VERSION E w = (Return true, w')
    ∧ installation w' = extract_over members (installation w)
    ∧ (∀ k, k ∉ members.*1 → installation w' !! k = installation w !! k)
    ∧ (NoDup members.*1 → ∀ k data, (k, data) ∈ members → installation w' !! k = Some data)
    ∧ temp_files w' = temp_files w
    ∧ backups w' = backups w
    ∧ events_since w w' = [Log INFO Performing_rollback; Log INFO Rollback_completed].
Proof.
  intros Hfile Hzip Hfault. eexists. split.
  - unfold _rollback. eapply bind_run; [reflexivity |]. cbv zeta.
    eapply bind_run.
    { unfold path_exists, bind, get_files, ret. simpl. rewrite Hfile. reflexivity. }
    rewrite bool_decide_eq_true_2 by (by eexists). simpl.
    eapply bind_run.
    { apply (extract_zip_completes _ _ _ content members); [exact Hfile | exact Hzip |].
      rewrite Hfault. by intros ft. }
    eapply bind_run; reflexivity.
  - unfold installation at 1 2, temp_files at 1, backups at 1, events_since. simpl.
    split; [done |].
    split; [intros k Hk; by apply extract_over_lookup_notin |].
    split; [intros Hnodup k data Hin; by apply extract_over_lookup_in |].
    split; [done |]. split; [done |].
    by rewrite <- app_assoc, drop_app_length.
Qed.

(** X5: when there is no file at the path [_rollback] looks for, it logs
    that no backup was found; when the file there is not a zip archive, it
    logs the extraction error and that the rollback failed.  In both cases it
    returns [False] and changes no file. *)
Theorem rollback_without_usable_archive E w :
  let backup_zip_path := with_suffix (get_backup_path VERSION) ".zip" in
  (lookup_file (files w) backup_zip_path = None →
     _rollback VERSION E w =
       (Return false,
        log_to (log_to w [Log INFO Performing_rollback])
          [Log ERROR No_backup_found_for_rollback]))
  ∧ (∀ content,
       lookup_file (files w) backup_zip_path = Some content →
       zip_members content = None →
       _rollback VERSION E w =
         (Return false,
          log_to (log_to (log_to w [Log INFO Performing_rollback])
                    [Log ERROR (Failed_to_extract backup_zip_path BadZipFile)])
            [Log ERROR Rollback_failed])).
Proof.
  cbv zeta. split; [apply rollback_missing |].
  intros content Hfile Hzip. unfold _rollback. eapply bind_run; [reflexivity |]. cbv zeta.
  eapply bind_run.
  { unfold path_exists, bind, get_files, ret. simpl. rewrite Hfile. reflexivity. }
  rewrite bool_decide_eq_true_2 by (by eexists). simpl.
  eapply bind_run.
  { unfold _extract_zip_to_app_dir. eapply try_except_handles.
    { eapply bind_run.
      { unfold read_file, bind, get_files. simpl. rewrite Hfile. reflexivity. }
      rewrite Hzip. reflexivity. }
    reflexivity. }
  eapply bind_run; reflexivity.
Qed.

End Rollback_archive.

Lemma rollback_extracts_archive_witness :
  let members := [("program.py", Reference.bytes_of_string "print('stray')")] in
  let w := Example.installed_with_stray_archive in
  ∃ w', _rollback VERSION_in_source (Example.cycle Example.manifest Example.package) w
        = (Return true, w')
    ∧ installation w' = extract_over members (installation w)
    ∧ (∀ k, k ∉ members.*1 → installation w' !! k = installation w !! k)
    ∧ (NoDup members.*1 → ∀ k data, (k, data) ∈ members → installation w' !! k = Some data)
    ∧ temp_files w' = temp_files w
    ∧ backups w' = backups w
    ∧ events_since w w' = [Log INFO Performing_rollback; Log INFO Rollback_completed].
Proof.
  exact (rollback_extracts_archive VERSION_in_source
           (Example.cycle Example.manifest Example.package)
           Example.installed_with_stray_archive Example.stray_archive
           [("program.py", Reference.bytes_of_string "print('stray')")]
           eq_refl eq_refl eq_refl).
Defined.

(** ** The rollback after a backup *)

Section Rollback_after_backup.

Context {libs : Libraries}.

Lemma backup_path_of_dotted_version a b :
  b ≠ "" → occurs "." b = false →
  with_suffix (get_backup_path (a +:+ String "." b)) ".zip"
  = BACKUP_DIR // ("nametag_v" +:+ a +:+ ".zip").
Proof.
  intros Hb Habsent.
  change (get_backup_path (a +:+ String "." b))
    with (mkPath BACKUP_DIR (("nametag_v" +:+ a) +:+ String "." b)).
  rewrite with_suffix_last_component by done. done.
Qed.

(** X6: for a running version of the form [a.b], where the last component
    [b] is not empty and has no dot (every semantic version is of this form),
    [_rollback] looks for [nametag_v<a>.zip], which is not the
    [nametag_v<a.b>.zip] that [_create_backup] writes.  So right after
    a successful backup, in a backup directory without a file
    [nametag_v<a>.zip], the rollback reports that no backup was found,
    returns [False] and restores nothing, although the backup is there. *)
Theorem rollback_misses_fresh_backup a b E1 E2 w :
  b ≠ "" →
  occurs "." b = false →
  make_archive_fault E1 = None →
  backups w !! ("nametag_v" +:+ a +:+ ".zip") = None →
  ∃ w1 w2,
    _create_backup (a +:+ String "." b) E1 w = (Return true, w1)
    ∧ backups w1 !! ("nametag_v" +:+ (a +:+ String "." b) +:+ ".zip")
      = Some (now E1, zip_archive (map_to_list (installation w)))
    ∧ with_suffix (get_backup_path (a +:+ String "." b)) ".zip"
      = BACKUP_DIR // ("nametag_v" +:+ a +:+ ".zip")
    ∧ _rollback (a +:+ String "." b) E2 w1 = (Return false, w2)
    ∧ files w2 = files w1
    ∧ events_since w1 w2
      = [Log INFO Performing_rollback; Log ERROR No_backup_found_for_rollback].
Proof.
  intros Hb Habsent Hfault Hnone. eexists _, _.
  split; [by apply create_backup_ok |].
  assert ("nametag_v" +:+ (a +:+ String "." b) +:+ ".zip" ≠ "nametag_v" +:+ a +:+ ".zip")
    as Hne.
  { intros Heq. apply (string_app_inv_l "nametag_v") in Heq.
    rewrite string_app_assoc in Heq. apply string_app_inv_l in Heq.
    apply (f_equal String.length) in Heq.
    change (String "." b +:+ ".zip") with (String "." (b +:+ ".zip")) in Heq.
    cbn [String.length] in Heq. rewrite string_length_app in Heq.
    cbn [String.length] in Heq. lia. }
  split.
  { unfold backups. simpl. apply lookup_insert_eq. }
  split; [by apply backup_path_of_dotted_version |].
  split.
  - apply rollback_missing. rewrite backup_path_of_dotted_version by done.
    unfold lookup_file. cbn [parent name joinpath files backup_dir].
    change (backup_archive_name (a +:+ String "." b))
      with ("nametag_v" +:+ (a +:+ String "." b) +:+ ".zip").
    rewrite lookup_insert_ne by done. by rewrite Hnone.
  - split; [done |]. unfold events_since. simpl.
    by rewrite <- app_assoc, drop_app_length.
Qed.

End Rollback_after_backup.

Lemma rollback_misses_fresh_backup_witness :
  let E := Example.cycle Example.manifest Example.package in
  ∃ w1 w2,
    _create_backup ("1.0" +:+ String "." "16") E Example.installed = (Return true, w1)
    ∧ backups w1 !! ("nametag_v" +:+ ("1.0" +:+ String "." "16") +:+ ".zip")
      = Some (now E, zip_archive (map_to_list (installation Example.installed)))
    ∧ with_suffix (get_backup_path ("1.0" +:+ String "." "16")) ".zip"
      = BACKUP_DIR // ("nametag_v" +:+ "1.0" +:+ ".zip")
    ∧ _rollback ("1.0" +:+ String "." "16") E w1 = (Return false, w2)
    ∧ files w2 = files w1
    ∧ events_since w1 w2
      = [Log INFO Performing_rollback; Log ERROR No_backup_found_for_rollback].
Proof.
  refine (rollback_misses_fresh_backup "1.0" "16"
            (Example.cycle Example.manifest Example.package)
            (Example.cycle Example.manifest Example.package)
            Example.installed _ eq_refl eq_refl eq_refl).
  discriminate.
Defined.

(** ** Downloads that fail *)

Section Download_failures.

Context {libs : Libraries}.

(** X7: when the update information is not a JSON object, or has no
    [version] key, or the download request fails before the body arrives,
    [_download_update] logs the error, returns [None] and writes nothing: no
    scratch file is created and no file is changed. *)
Theorem download_failure_writes_nothing E update_info w :
  (∀ d, update_info ≠ JDict d)
  ∨ (∃ d, update_info = JDict d ∧ assoc "version" d = None)
  ∨ (∃ e, download_reply E = Download_failed e) →
  ∃ e w', _download_update E update_info w = (Return None, w')
    ∧ files w' = files w
    ∧ Log ERROR (Failed_to_download_update e) ∈ events_since w w'.
Proof.
  intros Hfails.
  assert (∀ e, Log ERROR (Failed_to_download_update e)
               ∈ events_since w (log_to w [Log ERROR (Failed_to_download_update e)])) as Hfirst.
  { intros e. unfold events_since. simpl. rewrite drop_app_length. set_solver. }
  assert (∀ e, Log ERROR (Failed_to_download_update e)
               ∈ events_since w (log_to (log_to w [Log INFO Downloading_update])
                                   [Log ERROR (Failed_to_download_update e)])) as Hsecond.
  { intros e. unfold events_since. simpl. rewrite <- app_assoc, drop_app_length. set_solver. }
  destruct update_info as [| | | | |d];
    try (exists AttributeError; eexists; split; [reflexivity |]; split; [done | apply Hfirst]).
  destruct (assoc "version" d) as [version|] eqn:Hversion.
  - destruct Hfails as [Hnot | [(d' & [= <-] & Hnone) | (e & Hreply)]];
      [by destruct (Hnot d) | congruence |].
    exists e. eexists. split.
    + unfold _download_update. eapply try_except_handles.
      { eapply bind_run; [reflexivity |]. eapply bind_run; [reflexivity |].
        eapply bind_run; [simpl; rewrite Hversion; reflexivity |]. cbv zeta.
        rewrite Hreply. reflexivity. }
      reflexivity.
    + split; [done | apply Hsecond].
  - exists KeyError. eexists. split.
    + unfold _download_update. eapply try_except_handles.
      { eapply bind_run; [reflexivity |]. eapply bind_run; [reflexivity |].
        eapply bind_raises. simpl. rewrite Hversion. reflexivity. }
      reflexivity.
    + split; [done | apply Hsecond].
Qed.

(** Streaming logs nothing but progress lines. *)
Lemma iter_content_progress n total_size chunks downloaded w content :
  temp_files w !! n = Some content →
  ∃ progress,
    Forall (λ ev, ∃ received total, ev = Log INFO (Download_progress received total)) progress
    ∧ iter_content n total_size chunks downloaded w =
        (Return tt,
         mkWorld
           (mkFs (<[n := content ++ concat chunks]> (temp_files w)) (backups w) (installation w))
           (trace w ++ progress)).
Proof.
  revert downloaded w content. induction chunks as [|chunk rest IH];
    intros downloaded w content Hopen.
  - exists []. split; [constructor |]. simpl. unfold ret.
    rewrite !app_nil_r, insert_id by done. by destruct w as [[]].
  - destruct chunk as [|byte chunk].
    + simpl. by apply IH.
    + cbn [iter_content].
      set (w1 := mkWorld
             (mkFs (<[n := content ++ byte :: chunk]> (temp_files w)) (backups w)
                (installation w)) (trace w)).
      assert (write n (byte :: chunk) w = (Return tt, w1)) as Hwrite.
      { unfold write, bind, get_files, put_files, w1, temp_files in *. by rewrite Hopen. }
      destruct (0 <? total_size)%Z.
      * destruct (IH (downloaded + Z.of_nat (length (byte :: chunk)))%Z
                    (log_to w1 [Log INFO (Download_progress
                       (downloaded + Z.of_nat (length (byte :: chunk))) total_size)])
                    (content ++ byte :: chunk)) as (progress & Hprogress & Hrun).
        { unfold temp_files, w1. simpl. apply lookup_insert_eq. }
        exists (Log INFO (Download_progress
                  (downloaded + Z.of_nat (length (byte :: chunk))) total_size) :: progress).
        split; [constructor; [by eexists _, _ | done] |].
        eapply bind_run; [exact Hwrite |]. eapply bind_run; [reflexivity |].
        refine (eq_trans Hrun _). unfold temp_files, backups, installation, w1. simpl.
        by rewrite insert_insert_eq, <- !app_assoc.
      * destruct (IH (downloaded + Z.of_nat (length (byte :: chunk)))%Z w1
                    (content ++ byte :: chunk)) as (progress & Hprogress & Hrun).
        { unfold temp_files, w1. simpl. apply lookup_insert_eq. }
        exists progress. split; [done |].
        eapply bind_run; [exact Hwrite |]. eapply bind_run; [reflexivity |].
        refine (eq_trans Hrun _). unfold temp_files, backups, installation, w1. simpl.
        by rewrite insert_insert_eq, <- !app_assoc.
Qed.

(** X8: when the body of the download breaks off, [_download_update] logs
    the error and returns [None] without verifying anything: the cycle's
    lines are the start of the download, progress lines and the error.  The
    scratch file stays, holding the chunks received (it replaces an older
    file of that name); the backups and the installation are untouched. *)
Theorem interrupted_download_leaves_partial_file E d w version total_size chunks e :
  assoc "version" d = Some version →
  download_reply E = Download_body total_size chunks (Some e) →
  ∃ w' progress, _download_update E (JDict d) w = (Return None, w')
    ∧ temp_files w' = <[package_file version := concat chunks]> (temp_files w)
    ∧ backups w' = backups w
    ∧ installation w' = installation w
    ∧ events_since w w'
      = Log INFO Downloading_update :: progress ++ [Log ERROR (Failed_to_download_update e)]
    ∧ Forall (λ ev, ∃ received total, ev = Log INFO (Download_progress received total)) progress.
Proof.
  intros Hversion Hreply.
  set (w1 := log_to w [Log INFO Downloading_update]).
  set (w2 := mkWorld (mkFs (<[package_file version := []]> (temp_files w)) (backups w)
                        (installation w)) (trace w1)).
  destruct (iter_content_progress (package_file version) total_size chunks 0 w2 [])
    as (progress & Hprogress & Hstream); [apply lookup_insert_eq |].
  eexists. exists progress. split.
  - unfold _download_update. eapply try_except_handles.
    { eapply bind_run; [reflexivity |]. eapply bind_run; [reflexivity |].
      eapply bind_run; [simpl; rewrite Hversion; reflexivity |]. cbv zeta. rewrite Hreply.
      eapply bind_run; [reflexivity |]. eapply bind_run; [exact Hstream |].
      eapply bind_raises. reflexivity. }
    reflexivity.
  - unfold temp_files at 1, backups at 1, installation at 1, events_since. simpl.
    split; [unfold temp_files, w2; simpl; apply insert_insert_eq |].
    split; [done |]. split; [done |].
    split; [| done].
    by rewrite <- !app_assoc, drop_app_length.
Qed.

End Download_failures.

Lemma download_failure_writes_nothing_witness :
  ∃ e w', _download_update Sample.refused Example.manifest Example.installed = (Return None, w')
    ∧ files w' = files Example.installed
    ∧ Log ERROR (Failed_to_download_update e) ∈ events_since Example.installed w'.
Proof.
  apply (download_failure_writes_nothing Sample.refused Example.manifest Example.installed).
  right. right. by exists RequestException.
Defined.

Lemma interrupted_download_leaves_partial_file_witness :
  ∃ w' progress,
    _download_update Sample.cut_off Example.manifest Example.installed = (Return None, w')
    ∧ temp_files w'
      = <[package_file (JStr "1.0.17") := concat [Reference.bytes_of_string "PK"]]>
          (temp_files Example.installed)
    ∧ backups w' = backups Example.installed
    ∧ installation w' = installation Example.installed
    ∧ events_since Example.installed w'
      = Log INFO Downloading_update
        :: progress ++ [Log ERROR (Failed_to_download_update RequestException)]
    ∧ Forall (λ ev, ∃ received total, ev = Log INFO (Download_progress received total))
        progress.
Proof.
  exact (interrupted_download_leaves_partial_file Sample.cut_off
           [("version", JStr "1.0.17");
            ("checksum", JStr (Reference.hexdigest Example.package))]
           Example.installed (JStr "1.0.17") 30 [Reference.bytes_of_string "PK"]
           RequestException eq_refl eq_refl).
Defined.

(** ** A backup that fails *)

Section Backup_failure.

Context {libs : Libraries}.
Variable VERSION : string.

(** When [shutil.make_archive] raises, [_create_backup] logs the exception
    and returns [False]; what the archiver had written by then is in the
    slot of the running version. *)
Lemma create_backup_fails E w fault :
  make_archive_fault E = Some fault →
  _create_backup VERSION E w =
    (Return false,
     mkWorld
       (mkFs (temp_files w)
          (match archive_leftover fault with
           | Some partial => <[backup_archive_name VERSION := (now E, partial)]> (backups w)
           | None => backups w
           end)
          (installation w))
       (trace w ++ [Log INFO (Creating_backup (backup_archive_name VERSION));
                    Log ERROR (Failed_to_create_backup_exn (archive_exn fault))])).
Proof.
  intros Hfault.
  unfold _create_backup, make_archive, write_file, try_except, bind, logger_info, logger_error,
    emit, get_files, put_files, ret, raise.
  rewrite Hfault. destruct (archive_leftover fault); simpl; rewrite <- app_assoc; [done |].
  by destruct w as [[]].
Qed.

(** X9: when the package was downloaded and accepted but the backup archive
    cannot be written, [_perform_update_with_info] returns [False] before the
    installation is touched: neither the update nor a rollback is attempted.
    The downloaded package stays in the scratch directory, and what the
    archiver had written before it failed has replaced the earlier backup of
    the running version. *)
Theorem failed_backup_aborts_update E d w version total_size chunks fault :
  assoc "version" d = Some version →
  download_reply E = Download_body total_size chunks None →
  truthy (default JNull (assoc "checksum" d))
  && negb (digest_matches (concat chunks) (default JNull (assoc "checksum" d))) = false →
  make_archive_fault E = Some fault →
  ∃ w', _perform_update_with_info VERSION E (JDict d) w = (Return false, w')
    ∧ installation w' = installation w
    ∧ temp_files w' = <[package_file version := concat chunks]> (temp_files w)
    ∧ backups w' =
        match archive_leftover fault with
        | Some partial => <[backup_archive_name VERSION := (now E, partial)]> (backups w)
        | None => backups w
        end
    ∧ Log ERROR (Failed_to_create_backup_exn (archive_exn fault)) ∈ events_since w w'
    ∧ ¬ apply_attempted (events_since w w')
    ∧ ¬ rollback_attempted (events_since w w').
Proof.
  intros Hversion Hreply Haccepted Hfault.
  set (w1 := log_to w [Log INFO Starting_update_process]).
  destruct (download_update_body E d version total_size chunks w1 Hversion Hreply)
    as (events & Hevents & Hdownload).
  rewrite Haccepted in Hdownload.
  match type of Hdownload with _ = (_, ?W) => set (w2 := W) in * end.
  pose proof (create_backup_fails E w2 fault Hfault) as Hbackup.
  match type of Hbackup with _ = (_, ?W) => set (w3 := W) in * end.
  exists (log_to w3 [Log ERROR Failed_to_create_backup]). split.
  - unfold _perform_update_with_info. eapply try_except_returns.
    eapply bind_run; [reflexivity |]. eapply bind_run; [exact Hdownload |].
    eapply bind_run; [exact Hbackup |]. reflexivity.
  - split; [done |]. split; [done |]. split; [done |].
    assert (events_since w (log_to w3 [Log ERROR Failed_to_create_backup])
            = Log INFO Starting_update_process
              :: events
                 ++ [Log INFO Download_completed_and_verified;
                     Log INFO (Creating_backup (backup_archive_name VERSION));
                     Log ERROR (Failed_to_create_backup_exn (archive_exn fault));
                     Log ERROR Failed_to_create_backup]) as ->.
    { unfold events_since. simpl. by rewrite <- !app_assoc, drop_app_length. }
    rewrite Forall_forall in Hevents.
    split; [set_solver |].
    unfold apply_attempted, rollback_attempted.
    split; intros [Hin|Hin]%elem_of_cons; try done;
      apply elem_of_app in Hin as [Hin|Hin]; try (apply Hevents in Hin; exact Hin);
      set_solver.
Qed.

End Backup_failure.

Lemma failed_backup_aborts_update_witness :
  let fault := mkArchiveFault OSError None in
  ∃ w', _perform_update_with_info "1.0.16" Sample.disk_full Example.manifest Example.installed
        = (Return false, w')
    ∧ installation w' = installation Example.installed
    ∧ temp_files w'
      = <[package_file (JStr "1.0.17") := concat [Example.package]]>
          (temp_files Example.installed)
    ∧ backups w' =
        match archive_leftover fault with
        | Some partial =>
            <[backup_archive_name "1.0.16" := (now Sample.disk_full, partial)]>
              (backups Example.installed)
        | None => backups Example.installed
        end
    ∧ Log ERROR (Failed_to_create_backup_exn (archive_exn fault))
      ∈ events_since Example.installed w'
    ∧ ¬ apply_attempted (events_since Example.installed w')
    ∧ ¬ rollback_attempted (events_since Example.installed w').
Proof.
  apply (failed_backup_aborts_update "1.0.16" Sample.disk_full
           [("version", JStr "1.0.17");
            ("checksum", JStr (Reference.hexdigest Example.package))]
           Example.installed (JStr "1.0.17") 0 [Example.package]
           (mkArchiveFault OSError None)); [reflexivity | reflexivity | | reflexivity].
  vm_compute. reflexivity.
Defined.

(** ** An update that completes *)

Lemma prefix_app s t : String.prefix s (s +:+ t) = true.
Proof.
  induction s as [|c s IH]; [by destruct t |].
  change (String.prefix (String c s) (String c (s +:+ t)) = true).
  simpl. by destruct (ascii_dec c c).
Qed.

Lemma endswith_app s t : endswith (s +:+ t) t = true.
Proof.
  unfold endswith. rewrite string_length_app.
  replace (String.length s + String.length t - String.length t) with (String.length s) by lia.
  rewrite substring_app_r, String.eqb_refl, andb_true_r. apply Nat.leb_le. lia.
Qed.

(** The archive [_create_backup] writes matches the pattern
    [_cleanup_old_backups] lists, whatever the running version. *)
Lemma backup_glob_archive_name VERSION : backup_glob (backup_archive_name VERSION) = true.
Proof.
  change (backup_archive_name VERSION) with ("nametag_v" +:+ VERSION +:+ ".zip").
  unfold backup_glob. change (APP_NAME +:+ "_v") with "nametag_v".
  unfold startswith. rewrite prefix_app, <- string_app_assoc, endswith_app.
  rewrite !string_length_app. apply Nat.leb_le. lia.
Qed.

(** A listed archive strictly newer than every other one is among those the
    eviction keeps. *)
Lemma newest_backup_kept w n b :
  (n, b) ∈ listed_backups w →
  (∀ n' b', (n', b') ∈ listed_backups w → n' ≠ n → (b'.1 < b.1)%Z) →
  (n, b) ∈ kept_backups w.
Proof.
  intros Hlisted Hnewest.
  pose proof Hlisted as Hin. rewrite listed_kept_evicted in Hin.
  apply elem_of_app in Hin as [|Hevicted]; [done |]. exfalso.
  assert (∃ k, k ∈ kept_backups w) as [[n' b'] Hkept].
  { unfold kept_backups, evicted_backups in *.
    destruct (listed_backups w) as [|k l]; [by apply elem_of_nil in Hevicted |].
    exists k. unfold MAX_BACKUP_COUNT. simpl. apply list_elem_of_here. }
  assert (n' ≠ n) as Hne.
  { intros ->. apply (kept_not_evicted w n b' Hkept).
    by apply (list_elem_of_fmap_2 fst _ (n, b)). }
  assert ((n', b') ∈ listed_backups w) as Hlisted'.
  { rewrite listed_kept_evicted. apply elem_of_app. by left. }
  pose proof (Hnewest n' b' Hlisted' Hne) as Hlt.
  assert (newer_first (n', b') (n, b)) as Hle.
  { apply (StronglySorted_app_1_elem_of newer_first (kept_backups w) (evicted_backups w));
      [| done | done].
    rewrite <- listed_kept_evicted. apply StronglySorted_merge_sort; apply _. }
  unfold newer_first, st_mtime in Hle. simpl in Hle. lia.
Qed.

(** After the eviction the matching archives are the kept ones. *)
Lemma glob_after_eviction w w' :
  _cleanup_old_backups w = (Return tt, w') →
  glob_backups (files w') ≡ₚ kept_backups w.
Proof.
  rewrite cleanup_old_backups_run. intros [= <-].
  apply NoDup_Permutation.
  - apply (NoDup_fmap_1 fst), NoDup_glob_backups.
  - apply (NoDup_fmap_1 fst). pose proof (NoDup_listed_backups w) as Hnodup.
    rewrite listed_kept_evicted, fmap_app in Hnodup.
    by apply NoDup_app in Hnodup as (Hnodup & _ & _).
  - intros [n b]. rewrite elem_of_glob_backups, elem_of_kept_backups, elem_of_listed_backups.
    simpl. rewrite lookup_foldl_delete. destruct (decide _); intuition congruence.
Qed.

Section Completed_update.

Context {libs : Libraries}.
Variable VERSION : string.

(** The world an update that completes ends in. *)
Lemma perform_update_completes E d w version total_size chunks members :
  assoc "version" d = Some version →
  download_reply E = Download_body total_size chunks None →
  truthy (default JNull (assoc "checksum" d))
  && negb (digest_matches (concat chunks) (default JNull (assoc "checksum" d))) = false →
  make_archive_fault E = None →
  zip_members (concat chunks) = Some members →
  apply_fault E = None →
  ∃ events wb,
    Forall download_event events
    ∧ temp_files wb = ∅
    ∧ backups wb
      = <[backup_archive_name VERSION := (now E, zip_archive (map_to_list (installation w)))]>
          (backups w)
    ∧ installation wb = extract_over members (installation w)
    ∧ trace wb
      = trace w ++ Log INFO Starting_update_process
          :: events
             ++ [Log INFO Download_completed_and_verified;
                 Log INFO (Creating_backup (backup_archive_name VERSION));
                 Log INFO Backup_created_successfully;
                 Log INFO Applying_update;
                 Log INFO Update_applied_successfully]
    ∧ ∃ we, _cleanup_old_backups wb = (Return tt, we)
        ∧ _perform_update_with_info VERSION E (JDict d) w
          = (Return true, log_to we [Log INFO Update_completed_successfully]).
Proof.
  intros Hversion Hreply Haccepted Hbackup Hzip Hfault.
  set (w0 := log_to w [Log INFO Starting_update_process]).
  destruct (download_update_body E d version total_size chunks w0 Hversion Hreply)
    as (events & Hevents & Hdownload).
  rewrite Haccepted in Hdownload.
  match type of Hdownload with _ = (_, ?W) => set (w1 := W) in * end.
  pose proof (create_backup_ok VERSION E w1 Hbackup) as Hcreate.
  match type of Hcreate with _ = (_, ?W) => set (w2 := W) in * end.
  assert (_apply_update E (TEMP_DIR // package_file version) w2
          = (Return true,
             mkWorld (mkFs (temp_files w2) (backups w2) (extract_over members (installation w2)))
               (trace w2 ++ [Log INFO Applying_update; Log INFO Update_applied_successfully])))
    as Happly.
  { unfold _apply_update. eapply bind_run; [reflexivity |]. eapply bind_run.
    { apply (extract_zip_completes _ _ _ (concat chunks) members); [| exact Hzip |].
      - apply lookup_insert_eq.
      - rewrite Hfault. by intros ft. }
    eapply bind_run; [reflexivity |]. unfold ret, log_to. simpl.
    f_equal. apply (f_equal2 mkWorld); [done |]. by rewrite <- (app_assoc _ [_] [_]). }
  match type of Happly with _ = (_, ?W) => set (w3 := W) in * end.
  pose proof (cleanup_temp_files_run w3) as Htemp.
  match type of Htemp with _ = (_, ?W) => set (w4 := W) in * end.
  exists events, w4. split; [done |]. split; [done |]. split; [done |]. split; [done |].
  split.
  { unfold w4, w3, w2, w1, w0, log_to. simpl. by rewrite <- !app_assoc. }
  eexists. split; [apply cleanup_old_backups_run |].
  unfold _perform_update_with_info. eapply try_except_returns.
  eapply bind_run; [reflexivity |]. eapply bind_run; [exact Hdownload |].
  eapply bind_run; [exact Hcreate |]. eapply bind_run; [exact Happly |].
  eapply bind_run; [exact Htemp |].
  eapply bind_run; [apply cleanup_old_backups_run |]. reflexivity.
Qed.

End Completed_update.

Section Completed_update_properties.

Context {libs : Libraries}.
Variable VERSION : string.

(** X10: an update whose package arrives whole, passes verification, and
    whose backup and extraction do not fault, completes:
    [_perform_update_with_info] returns [True] without rolling back, the
    scratch directory is empty, and the installation directory is the old
    one with the members of the package extracted over it.  The backup
    directory holds nothing that was not there before, except the archive of
    the old installation in the slot of the version that was running; files
    that do not match the backup pattern are untouched; at most
    [MAX_BACKUP_COUNT] matching archives are left; and the new archive is
    among them when every other matching archive is older than this cycle's
    clock. *)
Theorem update_completes E d w version total_size chunks members :
  assoc "version" d = Some version →
  download_reply E = Download_body total_size chunks None →
  truthy (default JNull (assoc "checksum" d))
  && negb (digest_matches (concat chunks) (default JNull (assoc "checksum" d))) = false →
  make_archive_fault E = None →
  zip_members (concat chunks) = Some members →
  apply_fault E = None →
  ∃ w', _perform_update_with_info VERSION E (JDict d) w = (Return true, w')
    ∧ temp_files w' = ∅
    ∧ installation w' = extract_over members (installation w)
    ∧ (∀ n b, backups w' !! n = Some b →
         <[backup_archive_name VERSION := (now E, zip_archive (map_to_list (installation w)))]>
           (backups w) !! n = Some b)
    ∧ (∀ n, backup_glob n = false → backups w' !! n = backups w !! n)
    ∧ length (glob_backups (files w')) ≤ MAX_BACKUP_COUNT
    ∧ ((∀ n b, backups w !! n = Some b → backup_glob n = true →
               n ≠ backup_archive_name VERSION → (b.1 < now E)%Z) →
       backups w' !! backup_archive_name VERSION
       = Some (now E, zip_archive (map_to_list (installation w))))
    ∧ applied (events_since w w')
    ∧ ¬ rollback_attempted (events_since w w').
Proof.
  intros Hversion Hreply Haccepted Hbackup Hzip Hfault.
  destruct (perform_update_completes VERSION E d w version total_size chunks members)
    as (events & wb & Hevents & Htemp & Hslot & Hinst & Htrace & we & Hclean & Hrun);
    try done.
  exists (log_to we [Log INFO Update_completed_successfully]). split; [exact Hrun |].
  pose proof (glob_after_eviction wb we Hclean) as Hglob.
  rewrite cleanup_old_backups_run in Hclean. injection Hclean as <-.
  assert (∀ n, backups (mkWorld (mkFs (temp_files wb)
                 (foldl (λ m b, delete b.1 m) (backups wb) (evicted_backups wb))
                 (installation wb)) (trace wb ++ ((λ b, Log INFO (Removed_old_backup b.1))
                                                    <$> evicted_backups wb))) !! n
               = if decide (n ∈ (evicted_backups wb).*1) then None else backups wb !! n)
    as Hlookup.
  { intros n. unfold backups at 1. simpl. apply lookup_foldl_delete. }
  assert (∀ n, n ∈ (evicted_backups wb).*1 → backup_glob n = true) as Hmatch.
  { intros n ([n' b] & -> & Hin)%list_elem_of_fmap. simpl.
    assert ((n', b) ∈ listed_backups wb) as Hlisted.
    { rewrite listed_kept_evicted. apply elem_of_app. by right. }
    by apply elem_of_listed_backups in Hlisted as [_ ?]. }
  split; [exact Htemp |]. split; [exact Hinst |].
  split.
  { intros n b. change (backups (log_to ?W _)) with (backups W). rewrite Hlookup, Hslot.
    by destruct (decide _). }
  split.
  { intros n Hn. change (backups (log_to ?W _)) with (backups W). rewrite Hlookup, Hslot.
    rewrite decide_False by (intros Hin; apply Hmatch in Hin; congruence).
    apply lookup_insert_ne. intros <-. by rewrite backup_glob_archive_name in Hn. }
  split.
  { change (files (log_to ?W _)) with (files W). rewrite Hglob.
    unfold kept_backups. rewrite length_take. lia. }
  split.
  { intros Hnewest. change (backups (log_to ?W _)) with (backups W). rewrite Hlookup.
    assert ((backup_archive_name VERSION,
             (now E, zip_archive (map_to_list (installation w)))) ∈ kept_backups wb) as Hkept.
    { apply newest_backup_kept.
      - apply elem_of_listed_backups. rewrite Hslot.
        split; [apply lookup_insert_eq | apply backup_glob_archive_name].
      - intros n' b' [Hn' Hg]%elem_of_listed_backups Hne. simpl.
        rewrite Hslot, lookup_insert_ne in Hn' by done. by apply (Hnewest n' b'). }
    rewrite decide_False by (by eapply kept_not_evicted).
    rewrite Hslot. apply lookup_insert_eq. }
  assert (events_since w (log_to (mkWorld (mkFs (temp_files wb)
                 (foldl (λ m b, delete b.1 m) (backups wb) (evicted_backups wb))
                 (installation wb)) (trace wb ++ ((λ b, Log INFO (Removed_old_backup b.1))
                                                    <$> evicted_backups wb)))
               [Log INFO Update_completed_successfully])
          = Log INFO Starting_update_process
            :: events
               ++ [Log INFO Download_completed_and_verified;
                   Log INFO (Creating_backup (backup_archive_name VERSION));
                   Log INFO Backup_created_successfully;
                   Log INFO Applying_update;
                   Log INFO Update_applied_successfully]
               ++ ((λ b, Log INFO (Removed_old_backup b.1)) <$> evicted_backups wb)
               ++ [Log INFO Update_completed_successfully]) as ->.
  { unfold events_since. simpl. rewrite Htrace.
    rewrite <- !app_assoc, drop_app_length. simpl. by rewrite <- app_assoc. }
  rewrite Forall_forall in Hevents.
  split.
  - unfold applied. apply elem_of_cons. right. rewrite !elem_of_app. right. right. right.
    apply list_elem_of_here.
  - unfold rollback_attempted. intros [Hin|Hin]%elem_of_cons; [done |].
    rewrite !elem_of_app in Hin. destruct Hin as [Hin|[Hin|[Hin|Hin]]].
    + apply Hevents in Hin. exact Hin.
    + set_solver.
    + by apply list_elem_of_fmap in Hin as (? & ? & _).
    + set_solver.
Qed.

(** X11: the eviction orders by modification time only.  When
    [MAX_BACKUP_COUNT] other matching archives carry modification times
    later than this cycle's clock, the update completes and its own fresh
    backup is among the evicted: afterwards the backup directory holds no
    archive in the slot of the version that was running. *)
Theorem stale_clock_evicts_fresh_backup E d w version total_size chunks members others :
  assoc "version" d = Some version →
  download_reply E = Download_body total_size chunks None →
  truthy (default JNull (assoc "checksum" d))
  && negb (digest_matches (concat chunks) (default JNull (assoc "checksum" d))) = false →
  make_archive_fault E = None →
  zip_members (concat chunks) = Some members →
  apply_fault E = None →
  NoDup others →
  length others = MAX_BACKUP_COUNT →
  Forall (λ n, n ≠ backup_archive_name VERSION ∧ backup_glob n = true
               ∧ ∃ b, backups w !! n = Some b ∧ (now E < b.1)%Z) others →
  ∃ w', _perform_update_with_info VERSION E (JDict d) w = (Return true, w')
    ∧ backups w' !! backup_archive_name VERSION = None.
Proof.
  intros Hversion Hreply Haccepted Hbackup Hzip Hfault Hnodup Hlength Hothers.
  destruct (perform_update_completes VERSION E d w version total_size chunks members)
    as (events & wb & Hevents & Htemp & Hslot & Hinst & Htrace & we & Hclean & Hrun);
    try done.
  exists (log_to we [Log INFO Update_completed_successfully]). split; [exact Hrun |].
  rewrite cleanup_old_backups_run in Hclean. injection Hclean as <-.
  change (backups (log_to ?W _)) with (backups W). unfold backups at 1. simpl.
  rewrite lookup_foldl_delete.
  destruct (decide _) as [|Hnot]; [done |]. exfalso.
  set (slot := backup_archive_name VERSION) in *.
  set (archive := (now E, zip_archive (map_to_list (installation w)))) in *.
  assert ((slot, archive) ∈ kept_backups wb) as Hkept.
  { apply elem_of_kept_backups. split; [| done].
    apply elem_of_listed_backups. rewrite Hslot.
    split; [apply lookup_insert_eq | apply backup_glob_archive_name]. }
  assert (StronglySorted newer_first (kept_backups wb ++ evicted_backups wb)) as Hsorted.
  { rewrite <- listed_kept_evicted. apply StronglySorted_merge_sort; apply _. }
  rewrite Forall_forall in Hothers.
  assert (∀ n, n ∈ slot :: others → n ∈ (kept_backups wb).*1) as Hall.
  { intros n [->|Hn]%elem_of_cons.
    - by apply (list_elem_of_fmap_2 fst _ (slot, archive)).
    - destruct (Hothers n Hn) as (Hne & Hg & b & Hb & Hlater).
      assert ((n, b) ∈ listed_backups wb) as Hlisted.
      { apply elem_of_listed_backups. rewrite Hslot, lookup_insert_ne by done. done. }
      rewrite listed_kept_evicted in Hlisted.
      apply elem_of_app in Hlisted as [Hin|Hin];
        [by apply (list_elem_of_fmap_2 fst _ (n, b)) |].
      assert (newer_first (slot, archive) (n, b)) as Hle.
      { by apply (StronglySorted_app_1_elem_of newer_first (kept_backups wb)
                    (evicted_backups wb)). }
      unfold newer_first, st_mtime, archive in Hle. simpl in Hle. lia. }
  assert (NoDup (slot :: others)) as Hnodup'.
  { apply NoDup_cons. split; [| done]. intros Hin. by destruct (Hothers slot Hin). }
  pose proof (submseteq_length _ _ (NoDup_submseteq _ _ Hnodup' Hall)) as Hcount.
  rewrite length_fmap in Hcount. unfold kept_backups in Hcount.
  rewrite length_take in Hcount. cbn [length] in Hcount. lia.
Qed.

End Completed_update_properties.

Lemma update_completes_witness :
  let E := Example.cycle Example.manifest Example.package in
  let w := Example.installed in
  let members := [("program.py", Example.new_program)] in
  ∃ w', _perform_update_with_info "1.0.16" E Example.manifest w = (Return true, w')
    ∧ temp_files w' = ∅
    ∧ installation w' = extract_over members (installation w)
    ∧ (∀ n b, backups w' !! n = Some b →
         <[backup_archive_name "1.0.16" := (now E, zip_archive (map_to_list (installation w)))]>
           (backups w) !! n = Some b)
    ∧ (∀ n, backup_glob n = false → backups w' !! n = backups w !! n)
    ∧ length (glob_backups (files w')) ≤ MAX_BACKUP_COUNT
    ∧ ((∀ n b, backups w !! n = Some b → backup_glob n = true →
               n ≠ backup_archive_name "1.0.16" → (b.1 < now E)%Z) →
       backups w' !! backup_archive_name "1.0.16"
       = Some (now E, zip_archive (map_to_list (installation w))))
    ∧ applied (events_since w w')
    ∧ ¬ rollback_attempted (events_since w w').
Proof.
  apply (update_completes "1.0.16" (Example.cycle Example.manifest Example.package)
           [("version", JStr "1.0.17");
            ("checksum", JStr (Reference.hexdigest Example.package))]
           Example.installed (JStr "1.0.17") (Z.of_nat (length Example.package))
           [Example.package]
           [("program.py", Example.new_program)]);
    [reflexivity | reflexivity | vm_compute; reflexivity | reflexivity
    | vm_compute; reflexivity | reflexivity].
Defined.

Lemma stale_clock_evicts_fresh_backup_witness :
  let E := Example.cycle Example.manifest Example.package in
  ∃ w', _perform_update_with_info "1.0.16" E Example.manifest
          Sample.installed_with_later_backups = (Return true, w')
    ∧ backups w' !! backup_archive_name "1.0.16" = None.
Proof.
  apply (stale_clock_evicts_fresh_backup "1.0.16"
           (Example.cycle Example.manifest Example.package)
           [("version", JStr "1.0.17");
            ("checksum", JStr (Reference.hexdigest Example.package))]
           Sample.installed_with_later_backups (JStr "1.0.17") (Z.of_nat (length Example.package))
           [Example.package]
           [("program.py", Example.new_program)] Sample.later_backups);
    [reflexivity | reflexivity | vm_compute; reflexivity | reflexivity
    | vm_compute; reflexivity | reflexivity | | reflexivity |].
  - unfold Sample.later_backups. repeat (apply NoDup_cons; split; [set_solver |]).
    apply NoDup_nil_2.
  - unfold Sample.later_backups.
    repeat (apply Forall_cons; split;
            [split; [discriminate |]; split; [reflexivity |];
             exists (2000%Z, Example.stray_archive); split; [reflexivity | simpl; lia] |]).
    apply Forall_nil_2.
Defined.

(** ** An update the process is not restarted after *)

Lemma extract_over_union members (m : gmap string bytes) :
  extract_over members m = list_to_map (reverse members) ∪ m.
Proof.
  revert m. induction members as [|[k v] l IH]; intros m.
  - simpl. by rewrite (left_id_L ∅ (∪)).
  - rewrite extract_over_cons, IH, reverse_cons, list_to_map_app. simpl.
    by rewrite <- (assoc_L (∪)), <- insert_union_l, (left_id_L ∅ (∪)).
Qed.

(** Extracting the same members a second time changes nothing. *)
Lemma extract_over_idemp members (m : gmap string bytes) :
  extract_over members (extract_over members m) = extract_over members m.
Proof. by rewrite !extract_over_union, (assoc_L (∪)), (idemp_L (∪)). Qed.

Lemma completed_updates_app events1 events2 :
  completed_updates (events1 ++ events2)
  = completed_updates events1 + completed_updates events2.
Proof. unfold completed_updates. by rewrite List.filter_app, length_app. Qed.

Lemma completed_updates_none events :
  Forall (λ e, is_completion e = false) events → completed_updates events = 0.
Proof.
  unfold completed_updates. induction 1 as [|e events He _ IH]; [done |].
  simpl. by rewrite He.
Qed.

Lemma download_events_no_completion events :
  Forall download_event events → completed_updates events = 0.
Proof.
  intros Hevents. apply completed_updates_none.
  eapply Forall_impl; [exact Hevents |]. by intros [lvl []| |].
Qed.

Section Without_restart.

Context {libs : Libraries}.
Variable VERSION : string.

(** A cycle that finds a greater version hands the manifest to
    [_perform_update_with_info] and ends on its result. *)
Lemma check_and_update_due cb E w d remote comparison updated w1 :
  version_reply E = inr (JDict d) →
  assoc "version" d = Some (JStr remote) →
  remote ≠ "" →
  semver_compare remote VERSION = Some comparison →
  (0 < comparison)%Z →
  _perform_update_with_info VERSION E (JDict d)
    (log_to w [Log INFO Checking_for_updates;
               Log INFO (Current_version_Remote_version VERSION (JStr remote));
               Log INFO (Update_available (JStr remote))])
    = (Return updated, w1) →
  _check_and_update VERSION cb E w =
    if updated
    then request_restart cb
           (log_to w1 [Log INFO Update_completed_successfully_Requesting_restart])
    else (Return tt, log_to w1 [Log ERROR Update_failed_Continuing_with_current_version]).
Proof.
  intros Hreply Hversion Hremote Hcompare Hgreater Hperform.
  assert (truthy (JDict d) = true) as Hdict by (by destruct d).
  assert (truthy (JStr remote) = true) as Hstr.
  { simpl. apply negb_true_iff. by apply String.eqb_neq. }
  apply Z.ltb_lt in Hgreater.
  unfold _check_and_update, _get_update_info, try_except, bind, logger_info, logger_error,
    emit, ret, raise, py_get, semver_compare_call.
  rewrite Hreply. cbv beta iota. rewrite Hdict. cbn [negb]. cbv beta iota.
  rewrite Hversion. cbn [default]. unfold ret, raise, id. cbv beta iota.
  rewrite Hstr. cbn [negb]. cbv beta iota.
  rewrite Hcompare. cbv beta iota. rewrite Hgreater.
  unfold log_to in Hperform. cbn [files trace] in *.
  rewrite <- !app_assoc. cbn [app]. rewrite Hperform.
  destruct updated; simpl; [| done].
  unfold request_restart, call_restart_callback, emit, bind, ret, raise, replace_process.
  by destruct cb as [[]|].
Qed.

(** One cycle that finds a greater version and completes the update. *)
Lemma cycle_completes cb E w d remote comparison total_size chunks members :
  cb ≠ Some Callback_replaces_process →
  version_reply E = inr (JDict d) →
  assoc "version" d = Some (JStr remote) →
  remote ≠ "" →
  semver_compare remote VERSION = Some comparison →
  (0 < comparison)%Z →
  download_reply E = Download_body total_size chunks None →
  truthy (default JNull (assoc "checksum" d))
  && negb (digest_matches (concat chunks) (default JNull (assoc "checksum" d))) = false →
  make_archive_fault E = None →
  zip_members (concat chunks) = Some members →
  apply_fault E = None →
  ∃ new w', _check_and_update VERSION cb E w = (Return tt, w')
    ∧ trace w' = trace w ++ new
    ∧ completed_updates new = 1
    ∧ temp_files w' = ∅
    ∧ installation w' = extract_over members (installation w).
Proof.
  intros Hcb Hinfo Hversion Hremote Hcompare Hgreater Hreply Haccepted Hbackup Hzip Hfault.
  set (w0 := log_to w [Log INFO Checking_for_updates;
                       Log INFO (Current_version_Remote_version VERSION (JStr remote));
                       Log INFO (Update_available (JStr remote))]).
  destruct (perform_update_completes VERSION E d w0 (JStr remote) total_size chunks members)
    as (events & wb & Hevents & Htemp & Hslot & Hinst & Htrace & we & Hclean & Hrun);
    try done.
  rewrite cleanup_old_backups_run in Hclean. injection Hclean as <-.
  pose proof (check_and_update_due cb E w d remote comparison _ _
                Hinfo Hversion Hremote Hcompare Hgreater Hrun) as Hcycle.
  cbv iota in Hcycle.
  set (removed := (λ b : string * (Z * bytes), Log INFO (Removed_old_backup b.1))
                    <$> evicted_backups wb) in *.
  set (stages := Log INFO Starting_update_process
                 :: events
                    ++ [Log INFO Download_completed_and_verified;
                        Log INFO (Creating_backup (backup_archive_name VERSION));
                        Log INFO Backup_created_successfully;
                        Log INFO Applying_update;
                        Log INFO Update_applied_successfully]) in *.
  assert (completed_updates removed = 0) as Hremoved.
  { apply completed_updates_none. unfold removed. by apply Forall_fmap, Forall_true. }
  assert (completed_updates stages = 0) as Hstages.
  { unfold stages.
    change (completed_updates
              ([Log INFO Starting_update_process]
               ++ events
               ++ [Log INFO Download_completed_and_verified;
                   Log INFO (Creating_backup (backup_archive_name VERSION));
                   Log INFO Backup_created_successfully;
                   Log INFO Applying_update;
                   Log INFO Update_applied_successfully]) = 0).
    rewrite !completed_updates_app, (download_events_no_completion events Hevents). done. }
  assert (∀ tail, completed_updates tail = 0 →
            completed_updates
              ([Log INFO Checking_for_updates;
                Log INFO (Current_version_Remote_version VERSION (JStr remote));
                Log INFO (Update_available (JStr remote))]
               ++ stages ++ removed
               ++ [Log INFO Update_completed_successfully;
                   Log INFO Update_completed_successfully_Requesting_restart] ++ tail) = 1)
    as Hcount.
  { intros tail Htail. rewrite !completed_updates_app, Hstages, Hremoved, Htail. done. }
  assert (∀ tail, trace wb ++ removed
                  ++ [Log INFO Update_completed_successfully;
                      Log INFO Update_completed_successfully_Requesting_restart] ++ tail
                  = trace w
                    ++ [Log INFO Checking_for_updates;
                        Log INFO (Current_version_Remote_version VERSION (JStr remote));
                        Log INFO (Update_available (JStr remote))]
                    ++ stages ++ removed
                    ++ [Log INFO Update_completed_successfully;
                        Log INFO Update_completed_successfully_Requesting_restart] ++ tail)
    as Hnew.
  { intros tail. rewrite Htrace. unfold w0, log_to. cbn [trace].
    by rewrite <- !app_assoc. }
  destruct cb as [[|e|]|]; [| | done |].
  - eexists _, _. split; [exact Hcycle |].
    split; [| split; [apply (Hcount [Restart_callback]); done | by split]].
    unfold log_to. cbn [trace]. rewrite <- !app_assoc. apply (Hnew [Restart_callback]).
  - eexists _, _. split; [exact Hcycle |].
    split; [| split; [apply (Hcount [Restart_callback;
                                     Log ERROR (Error_during_periodic_update_check e)]); done
                     | by split]].
    unfold log_to. cbn [trace]. rewrite <- !app_assoc.
    apply (Hnew [Restart_callback; Log ERROR (Error_during_periodic_update_check e)]).
  - eexists _, _. split; [exact Hcycle |].
    split; [| split; [apply (Hcount []); done | by split]].
    unfold log_to. cbn [trace]. rewrite <- !app_assoc. apply (Hnew []).
Qed.

End Without_restart.
